(** * shelved_cache: the persistence layer of [persistent_cache.py]

    A shallow embedding of [DelMixin] and [PersistentCache] together with
    the two collaborators the module imports: [cachetools.Cache] (the
    wrapped eviction cache) and [shelve.Shelf] (the backing store).

    Python objects are mutable; every method is therefore a computation in
    a state-and-exception monad over the object graph.  An exception keeps
    the mutations performed before it was raised, as in Python. *)

From Stdlib Require Import ZArith List String Ascii Bool Lia.
From Stdlib Require Import DecimalString DecimalZ DecimalPos.
Import ListNotations.
Open Scope Z_scope.

Set Implicit Arguments.

(** ** Exceptions and the method monad *)

(** Argument carried by a [KeyError]: the cache raises it with the cache
    key, the dbm layer under the shelf with the store key, and
    [Cache.popitem] with a message when the cache is empty. *)
Inductive KeyArg (K : Type) : Type :=
| CacheKey (k : K)
| StoreKey (hk : string)
| CacheIsEmpty.
Arguments CacheKey {K} k.
Arguments StoreKey {K} hk.
Arguments CacheIsEmpty {K}.

Inductive exn (K : Type) : Type :=
| KeyError (a : KeyArg K)
| ValueError_value_too_large
| TypeError_NoneType.
Arguments KeyError {K} a.
Arguments ValueError_value_too_large {K}.
Arguments TypeError_NoneType {K}.

(** Outcome of a call: a returned value, a raised exception, or the
    exhaustion of the iteration bound of a modelled loop. *)
Inductive result (K A : Type) : Type :=
| Ok (a : A)
| Raise (e : exn K)
| OutOfFuel.
Arguments Ok {K A} a.
Arguments Raise {K A} e.
Arguments OutOfFuel {K A}.

Definition M (K S A : Type) : Type := S -> result K A * S.

Definition ret {K S A} (a : A) : M K S A := fun s => (Ok a, s).

Definition raise {K S A} (e : exn K) : M K S A := fun s => (Raise e, s).

Definition bind {K S A B} (m : M K S A) (f : A -> M K S B) : M K S B :=
  fun s =>
    match m s with
    | (Ok a, s') => f a s'
    | (Raise e, s') => (Raise e, s')
    | (OutOfFuel, s') => (OutOfFuel, s')
    end.

Definition gets {K S A} (f : S -> A) : M K S A := fun s => (Ok (f s), s).

Definition modify {K S} (f : S -> S) : M K S unit := fun s => (Ok tt, f s).

Declare Scope py_scope.
Delimit Scope py_scope with py.
Notation "x <- m ;; k" := (bind m (fun x => k))
  (at level 61, m at next level, right associativity) : py_scope.
Notation "m ;;; k" := (bind m (fun _ => k))
  (at level 61, right associativity) : py_scope.
Open Scope py_scope.

(** ** [str] of a Python int: the decimal rendering *)

Definition str (z : Z) : string := NilZero.string_of_int (Z.to_int z).

(** ** Python dict as an insertion-ordered association list

    A key occurs at most once; assignment to a present key keeps its
    position, assignment to a new key appends, deletion removes. *)
Section Dict.
Variables (A B : Type).
Variable A_eqb : A -> A -> bool.

Fixpoint dict_get (d : list (A * B)) (a : A) : option B :=
  match d with
  | [] => None
  | (a', b) :: d' => if A_eqb a a' then Some b else dict_get d' a
  end.

Definition dict_mem (d : list (A * B)) (a : A) : bool :=
  match dict_get d a with Some _ => true | None => false end.

Fixpoint dict_set (d : list (A * B)) (a : A) (b : B) : list (A * B) :=
  match d with
  | [] => [(a, b)]
  | (a', b') :: d' =>
      if A_eqb a a' then (a', b) :: d' else (a', b') :: dict_set d' a b
  end.

Fixpoint dict_del (d : list (A * B)) (a : A) : list (A * B) :=
  match d with
  | [] => []
  | (a', b') :: d' =>
      if A_eqb a a' then d' else (a', b') :: dict_del d' a
  end.

Definition dict_keys (d : list (A * B)) : list A := map fst d.
End Dict.

(** ** [cachetools.Cache]

    Modelled from the spec: the wrapped eviction cache.  [cachetools] is
    imported by [persistent_cache.py]; its source is not part of the
    repository.  The spec gives the interface: get (KeyNotFound on an
    absent key), set (which may evict another key through the single-key
    removal primitive), delete (KeyNotFound on an absent key), contains.
    The model is the library's base class [Cache] with its default
    [getsizeof] (every item has size 1, so [currsize] is the number of
    items): [data] is the private dict, [maxsize] is fixed at
    construction, and [popitem] evicts the oldest key.

    The methods are written over an arbitrary object state [S] holding the
    cache, and [__setitem__], [popitem] take the method that
    [del self[key]] dispatches to: the subclass built by
    [PersistentCache.__init__] overrides exactly that primitive. *)
Section CacheClass.
Variables (K V : Type).
Variable K_eqb : K -> K -> bool.

Record Cache : Type := mkCache {
  data : list (K * V);
  maxsize : Z
}.

Definition currsize (c : Cache) : Z := Z.of_nat (List.length (data c)).

Definition Cache___init__ (maxsize : Z) : Cache :=
  {| data := []; maxsize := maxsize |}.

Variable S : Type.
Variable cache_of : S -> Cache.
Variable with_cache : Cache -> S -> S.

Definition Cache___missing__ (key : K) : M K S V :=
  raise (KeyError (CacheKey key)).

Definition Cache___getitem__ (key : K) : M K S V :=
  fun s =>
    match dict_get K_eqb (data (cache_of s)) key with
    | Some v => (Ok v, s)
    | None => Cache___missing__ key s
    end.

Definition Cache___contains__ (key : K) : M K S bool :=
  gets (fun s => dict_mem K_eqb (data (cache_of s)) key).

Definition Cache___delitem__ (key : K) : M K S unit :=
  fun s =>
    let c := cache_of s in
    if dict_mem K_eqb (data c) key
    then (Ok tt, with_cache {| data := dict_del K_eqb (data c) key;
                               maxsize := maxsize c |} s)
    else (Raise (KeyError (CacheKey key)), s).

(** What [del self[key]] resolves to on the object at hand. *)
Variable self___delitem__ : K -> M K S unit.

Definition Cache_popitem : M K S (K * V) :=
  fun s =>
    match dict_keys (data (cache_of s)) with
    | [] => (Raise (KeyError CacheIsEmpty), s)
    | key :: _ =>
        (value <- Cache___getitem__ key ;;
         self___delitem__ key ;;;
         ret (key, value)) s
    end.

(** [while self.__currsize + size > maxsize: self.popitem()] *)
Fixpoint Cache_evict_while (fuel : nat) (size : Z) : M K S unit :=
  fun s =>
    if currsize (cache_of s) + size >? maxsize (cache_of s) then
      match fuel with
      | O => (OutOfFuel, s)
      | Datatypes.S fuel' =>
          (Cache_popitem ;;; Cache_evict_while fuel' size) s
      end
    else (Ok tt, s).

(** [__setitem__]: a value larger than the cache is refused; a new key
  first makes room (a present key is never larger than it was, sizes
  being 1); then the item is written. *)
Definition Cache___setitem__ (key : K) (value : V) : M K S unit :=
  fun s =>
    let size := 1 in
    if size >? maxsize (cache_of s) then
      (Raise ValueError_value_too_large, s)
    else
      ((if dict_mem K_eqb (data (cache_of s)) key then ret tt
        else Cache_evict_while (List.length (data (cache_of s))) size) ;;;
       modify (fun s' =>
         let c := cache_of s' in
         with_cache {| data := dict_set K_eqb (data c) key value;
                       maxsize := maxsize c |} s')) s.
End CacheClass.

(** ** [DelMixin] *)
Section DelMixinClass.
Variables (K S : Type).
(** [super().__delitem__] and the callback stored by [__init__]. *)
Variable super___delitem__ : K -> M K S unit.
Variable delete_callback : K -> M K S unit.

Definition DelMixin___delitem__ (key : K) : M K S unit :=
  super___delitem__ key ;;;
  delete_callback key.
End DelMixinClass.

(** ** [PersistentCache] and its environment *)
Section PersistentCacheClass.
Variables (K V : Type).
Variable K_eqb : K -> K -> bool.
(** Python's builtin [hash] on the key type. *)
Variable hash : K -> Z.

(** Modelled from the spec: the backing store.  [shelve] is the standard
    library's; the spec gives the interface (open by name, get, set and
    delete by string key with KeyNotFound on an absent key, iteration over
    all entries, flush, close).  The database behind a shelf maps a store
    key to the pickled [(key, value)]; it is kept in insertion order. *)
Definition Store : Type := list (string * (K * V)).

(** The handle returned by [shelve.open(filename)]. *)
Inductive Shelf : Type := DbfilenameShelf (name : string).

(** The object graph of one [PersistentCache] together with the database
    its filename designates.  [wrapped_hooked] records the class of
    [wrapped]: [true] for the [(DelMixin, wrapped_cache_cls)] subclass
    carrying [self.delete_callback], [false] for the bare class.
    [hook_log] is instrumentation: the keys [delete_callback] has been
    invoked with, oldest first. *)
Record World : Type := mkWorld {
  wrapped : Cache K V;
  wrapped_hooked : bool;
  filename : option string;
  persistent_dict : option Shelf;
  disk : Store;
  hook_log : list K
}.

Definition with_wrapped (c : Cache K V) (w : World) : World :=
  {| wrapped := c; wrapped_hooked := wrapped_hooked w;
     filename := filename w; persistent_dict := persistent_dict w;
     disk := disk w; hook_log := hook_log w |}.

Definition with_persistent_dict (p : option Shelf) (w : World) : World :=
  {| wrapped := wrapped w; wrapped_hooked := wrapped_hooked w;
     filename := filename w; persistent_dict := p;
     disk := disk w; hook_log := hook_log w |}.

Definition with_disk (d : Store) (w : World) : World :=
  {| wrapped := wrapped w; wrapped_hooked := wrapped_hooked w;
     filename := filename w; persistent_dict := persistent_dict w;
     disk := d; hook_log := hook_log w |}.

Definition with_hook_log (l : list K) (w : World) : World :=
  {| wrapped := wrapped w; wrapped_hooked := wrapped_hooked w;
     filename := filename w; persistent_dict := persistent_dict w;
     disk := disk w; hook_log := l |}.

(** Truth value of [filename]: [None] and the empty string are false. *)
Definition truthy (f : option string) : bool :=
  match f with
  | None => false
  | Some EmptyString => false
  | Some (String _ _) => true
  end.

Definition is_None {A} (o : option A) : bool :=
  match o with None => true | Some _ => false end.

(** *** Shelf operations, through an open handle *)

Definition Shelf___getitem__ (sh : Shelf) (hk : string) : M K World (K * V) :=
  fun w =>
    match dict_get String.eqb (disk w) hk with
    | Some r => (Ok r, w)
    | None => (Raise (KeyError (StoreKey hk)), w)
    end.

Definition Shelf___setitem__ (sh : Shelf) (hk : string) (r : K * V)
  : M K World unit :=
  modify (fun w => with_disk (dict_set String.eqb (disk w) hk r) w).

Definition Shelf___delitem__ (sh : Shelf) (hk : string) : M K World unit :=
  fun w =>
    if dict_mem String.eqb (disk w) hk
    then (Ok tt, with_disk (dict_del String.eqb (disk w) hk) w)
    else (Raise (KeyError (StoreKey hk)), w).

(** [dbm.keys()] returns a list: a snapshot taken when iteration starts. *)
Definition Shelf_keys (sh : Shelf) : M K World (list string) :=
  gets (fun w => dict_keys (disk w)).

(** Writes reach the database as they are made; [sync] and [close] do
    not change its contents. *)
Definition Shelf_sync (sh : Shelf) : M K World unit := ret tt.
Definition Shelf_close (sh : Shelf) : M K World unit := ret tt.

(** [for hk, (k, v) in shelf.items(): body]: [ItemsView] walks the key
    snapshot and reads each record from the shelf when it reaches it. *)
Fixpoint Shelf_items_for (sh : Shelf) (keys : list string)
    (body : string -> K * V -> M K World unit) : M K World unit :=
  match keys with
  | [] => ret tt
  | hk :: keys' =>
      r <- Shelf___getitem__ sh hk ;;
      body hk r ;;;
      Shelf_items_for sh keys' body
  end.

(** Subscript operations on [self.persistent_dict], which may be [None]. *)
Definition on_persistent_dict {A} (m : Shelf -> M K World A) : M K World A :=
  fun w =>
    match persistent_dict w with
    | None => (Raise TypeError_NoneType, w)
    | Some sh => m sh w
    end.

(** *** Methods *)

Definition hash_key (key : K) : string := str (hash key).

(** [delete_callback], given the [initialize_if_not_initialized] it calls. *)
Definition delete_callback_with (initialize : M K World unit) (key : K)
  : M K World unit :=
  modify (fun w => with_hook_log (hook_log w ++ [key]) w) ;;;
  initialize ;;;
  let hkey := hash_key key in
  on_persistent_dict (fun sh => Shelf___delitem__ sh hkey).

(** [self.wrapped.__delitem__], by the class of [wrapped]. *)
Definition wrapped___delitem___with (initialize : M K World unit) (key : K)
  : M K World unit :=
  fun w =>
    if wrapped_hooked w
    then DelMixin___delitem__
           (Cache___delitem__ K_eqb wrapped with_wrapped)
           (delete_callback_with initialize) key w
    else Cache___delitem__ K_eqb wrapped with_wrapped key w.

(** [self.wrapped[k] = v] *)
Definition wrapped___setitem___with (initialize : M K World unit)
    (key : K) (value : V) : M K World unit :=
  Cache___setitem__ K_eqb wrapped with_wrapped
    (wrapped___delitem___with initialize) key value.

(** [initialize_if_not_initialized] and [delete_callback] call each other;
    [depth] bounds the nesting of those calls. *)
Fixpoint initialize_if_not_initialized_at (depth : nat) : M K World unit :=
  fun w =>
    if truthy (filename w) && is_None (persistent_dict w) then
      match depth with
      | O => (OutOfFuel, w)
      | Datatypes.S depth' =>
          match filename w with
          | None => (Raise TypeError_NoneType, w)
          | Some name =>
              let sh := DbfilenameShelf name in
              (modify (with_persistent_dict (Some sh)) ;;;
               keys <- Shelf_keys sh ;;
               Shelf_items_for sh keys (fun hk r =>
                 wrapped___setitem___with
                   (initialize_if_not_initialized_at depth')
                   (fst r) (snd r))) w
          end
      end
    else (Ok tt, w).

(** Bound on the nesting of method calls (Python's recursion limit plays
    this role); the nesting reached by the methods below is at most two. *)
Definition recursion_limit : nat := 8.

Definition initialize_if_not_initialized : M K World unit :=
  initialize_if_not_initialized_at recursion_limit.

Definition delete_callback : K -> M K World unit :=
  delete_callback_with initialize_if_not_initialized.

Definition wrapped___delitem__ : K -> M K World unit :=
  wrapped___delitem___with initialize_if_not_initialized.

Definition wrapped___setitem__ : K -> V -> M K World unit :=
  wrapped___setitem___with initialize_if_not_initialized.

(** [PersistentCache(wrapped_cache_cls, filename, maxsize)] over the
    database [d] that [filename] designates. *)
Definition PersistentCache___init__ (filename : option string)
    (maxsize : Z) (d : Store) : World :=
  {| wrapped := Cache___init__ K V maxsize;
     wrapped_hooked := truthy filename;
     filename := filename;
     persistent_dict := None;
     disk := d;
     hook_log := [] |}.

Definition PersistentCache___setitem__ (key : K) (value : V)
  : M K World unit :=
  initialize_if_not_initialized ;;;
  wrapped___setitem__ key value ;;;
  let hkey := hash_key key in
  fun w =>
    match persistent_dict w with
    | Some sh =>
        (Shelf___setitem__ sh hkey (key, value) ;;;
         Shelf_sync sh) w
    | None => (Ok tt, w)
    end.

Definition PersistentCache___getitem__ (item : K) : M K World V :=
  initialize_if_not_initialized ;;;
  Cache___getitem__ K_eqb wrapped item.

Definition PersistentCache___contains__ (item : K) : M K World bool :=
  initialize_if_not_initialized ;;;
  Cache___contains__ K_eqb wrapped item.

(** [__getattr__] for the attributes used below: the forwarded
    [__delitem__] (called with a key), [currsize] and [maxsize]. *)
Definition PersistentCache___getattr_____delitem__ (key : K)
  : M K World unit :=
  initialize_if_not_initialized ;;;
  wrapped___delitem__ key.

Definition PersistentCache___getattr___currsize : M K World Z :=
  initialize_if_not_initialized ;;;
  gets (fun w => currsize (wrapped w)).

Definition PersistentCache___getattr___maxsize : M K World Z :=
  initialize_if_not_initialized ;;;
  gets (fun w => maxsize (wrapped w)).

Definition PersistentCache_close : M K World unit :=
  fun w =>
    match persistent_dict w with
    | Some sh =>
        (Shelf_close sh ;;;
         modify (with_persistent_dict None)) w
    | None => (Ok tt, w)
    end.

(** *** Operation sequences *)

(** The operations shared with the wrapped cache. *)
Inductive CacheOp : Type :=
| OpSet (k : K) (v : V)
| OpGet (k : K)
| OpContains (k : K)
| OpDelete (k : K)
| OpCurrsize
| OpMaxsize.

(** The operations of a [PersistentCache]: those, and [close]. *)
Inductive Op : Type :=
| OnCache (o : CacheOp)
| OpClose.

Inductive Value : Type :=
| VNone
| VItem (v : V)
| VBool (b : bool)
| VInt (z : Z).

Definition fmap_result {A B} (f : A -> B) (r : result K A) : result K B :=
  match r with
  | Ok a => Ok (f a)
  | Raise e => Raise e
  | OutOfFuel => OutOfFuel
  end.

Definition returning {S A} (f : A -> Value) (m : M K S A)
  : S -> result K Value * S :=
  fun s => let (r, s') := m s in (fmap_result f r, s').

Definition step_cache (o : CacheOp) : World -> result K Value * World :=
  match o with
  | OpSet k v => returning (fun _ => VNone) (PersistentCache___setitem__ k v)
  | OpGet k => returning VItem (PersistentCache___getitem__ k)
  | OpContains k => returning VBool (PersistentCache___contains__ k)
  | OpDelete k =>
      returning (fun _ => VNone) (PersistentCache___getattr_____delitem__ k)
  | OpCurrsize => returning VInt PersistentCache___getattr___currsize
  | OpMaxsize => returning VInt PersistentCache___getattr___maxsize
  end.

Definition step (o : Op) : World -> result K Value * World :=
  match o with
  | OnCache o' => step_cache o'
  | OpClose => returning (fun _ => VNone) PersistentCache_close
  end.

(** A caller that catches exceptions and carries on: the outcome of each
    operation and the final world. *)
Fixpoint run (ops : list Op) (w : World) : list (result K Value) * World :=
  match ops with
  | [] => ([], w)
  | o :: ops' =>
      let (r, w') := step o w in
      let (rs, w'') := run ops' w' in
      (r :: rs, w'')
  end.

(** The same operations on the bare wrapped cache. *)
Definition bare___delitem__ : K -> M K (Cache K V) unit :=
  Cache___delitem__ K_eqb (fun c => c) (fun c _ => c).

Definition bare_step (o : CacheOp)
  : Cache K V -> result K Value * Cache K V :=
  match o with
  | OpSet k v =>
      returning (fun _ => VNone)
        (Cache___setitem__ K_eqb (fun c => c) (fun c _ => c)
           bare___delitem__ k v)
  | OpGet k =>
      returning VItem (Cache___getitem__ K_eqb (fun c => c) k)
  | OpContains k =>
      returning VBool (Cache___contains__ K_eqb (fun c => c) k)
  | OpDelete k => returning (fun _ => VNone) (bare___delitem__ k)
  | OpCurrsize => returning VInt (gets (fun c => currsize c))
  | OpMaxsize => returning VInt (gets (fun c => maxsize c))
  end.

Fixpoint bare_run (ops : list CacheOp) (c : Cache K V)
  : list (result K Value) * Cache K V :=
  match ops with
  | [] => ([], c)
  | o :: ops' =>
      let (r, c') := bare_step o c in
      let (rs, c'') := bare_run ops' c' in
      (r :: rs, c'')
  end.
End PersistentCacheClass.

Arguments OpSet {K V} k v.
Arguments OpGet {K V} k.
Arguments OpContains {K V} k.
Arguments OpDelete {K V} k.
Arguments OpCurrsize {K V}.
Arguments OpMaxsize {K V}.
Arguments OnCache {K V} o.
Arguments OpClose {K V}.
Arguments VNone {V}.
Arguments VItem {V} v.
Arguments VBool {V} b.
Arguments VInt {V} z.
Arguments PersistentCache___init__ {K V} filename maxsize d.

(** ** CPython's [hash] on ints (64-bit build)

    The builtin the module calls in [hash_key], for int keys: reduction
    modulo the Mersenne prime [2^61 - 1], keeping the sign, with [-1]
    reserved as the error value and replaced by [-2]. *)
Definition PyHASH_MODULUS : Z := 2 ^ 61 - 1.

Definition int_hash (n : Z) : Z :=
  let h := Z.sgn n * (Z.abs n mod PyHASH_MODULUS) in
  if h =? -1 then -2 else h.


(** * Specification vocabulary *)
Section Vocabulary.
Variables (K V : Type).
Variable K_eqb : K -> K -> bool.
Variable hash : K -> Z.

(** Nothing is left for [initialize_if_not_initialized] to do: persistence
    is off, or the shelf is open. *)
Definition initialized (w : World K V) : bool :=
  negb (truthy (filename w) && is_None (persistent_dict w)).

(** The world in which [delete_callback] finds itself when [key] has just
    been removed from [wrapped]. *)
Definition after_removal (key : K) (w : World K V) : World K V :=
  with_wrapped (snd (bare___delitem__ K_eqb key (wrapped w))) w.

(** The store record of a cache item, under its store key. *)
Definition entry (kv : K * V) : string * (K * V) :=
  (hash_key hash (fst kv), kv).

(** The store holds exactly the hashed keys of the in-memory cache. *)
Definition store_keys_match (w : World K V) : Prop :=
  forall hk : string,
    In hk (dict_keys (disk w)) <->
    exists k : K, In k (dict_keys (data (wrapped w))) /\ hk = hash_key hash k.

(** The store mirrors the cache record for record, in order. *)
Definition mirror (w : World K V) : Prop :=
  disk w = map entry (data (wrapped w)).

(** A database as this module writes it: one record per store key, each
    filed under the hash of its own key. *)
Definition store_ok (d : Store K V) : Prop :=
  NoDup (dict_keys d) /\
  Forall (fun e => fst e = hash_key hash (fst (snd e))) d.

(** No two distinct keys of [U] have the same hash. *)
Definition collision_free (U : list K) : Prop :=
  forall a b : K, In a U -> In b U -> hash a = hash b -> a = b.

(** The keys an operation names. *)
Definition op_keys (o : CacheOp K V) : list K :=
  match o with
  | OpSet k _ | OpGet k | OpContains k | OpDelete k => [k]
  | OpCurrsize | OpMaxsize => []
  end.

(** Number of items [__setitem__] evicts to make room for a new one. *)
Definition excess (data : list (K * V)) (maxsize : Z) : nat :=
  Z.to_nat (Z.of_nat (List.length data) + 1 - maxsize).

(** The cache after [cache[k] = v] for a key not yet in it: the oldest
    items in excess are dropped, the new one goes last. *)
Definition insert_new (maxsize : Z) (data : list (K * V)) (r : K * V)
  : list (K * V) :=
  skipn (excess data maxsize) data ++ [r].

(** The keys that insertion evicts, oldest first. *)
Definition evicted_by (maxsize : Z) (data : list (K * V)) : list K :=
  dict_keys (firstn (excess data maxsize) data).

(** The cache, and the keys evicted on the way, after inserting the
    records [rs] one after the other, none of their keys being in the
    cache when its turn comes. *)
Fixpoint replay_data (maxsize : Z) (data : list (K * V)) (rs : list (K * V))
  : list (K * V) :=
  match rs with
  | [] => data
  | r :: rs' => replay_data maxsize (insert_new maxsize data r) rs'
  end.

Fixpoint replay_log (maxsize : Z) (data : list (K * V)) (l : list K)
    (rs : list (K * V)) : list K :=
  match rs with
  | [] => l
  | r :: rs' =>
      replay_log maxsize (insert_new maxsize data r)
        (l ++ evicted_by maxsize data) rs'
  end.

(** An opened world whose store is the mirror of the cache followed by the
    records [rest]. *)
Definition opened_world (items : list (K * V)) (ms : Z) (f : option string)
    (sh : Shelf) (rest : Store K V) (l : list K) : World K V :=
  {| wrapped := {| data := items; maxsize := ms |};
     wrapped_hooked := true;
     filename := f;
     persistent_dict := Some sh;
     disk := map entry items ++ rest;
     hook_log := l |}.

(** Persistence on, shelf open, the store the exact mirror of the cache,
    no two cached keys with the same store key, every cached key in [U]. *)
Definition coherent (U : list K) (w : World K V) : Prop :=
  exists items ms f sh l,
    w = opened_world items ms f sh [] l /\
    NoDup (map (hash_key hash) (dict_keys items)) /\
    incl (dict_keys items) U.

(** A method of the bare cache, run on the [wrapped] field of the world. *)
Definition lift {A} (m : M K (Cache K V) A) : M K (World K V) A :=
  fun w => let (r, c) := m (wrapped w) in (r, with_wrapped c w).

(** The bare cache under the operations of a [PersistentCache]: it has no
    [close], which is taken as doing nothing to it. *)
Definition bare_step_op (o : Op K V) (c : Cache K V)
  : result K (Value V) * Cache K V :=
  match o with
  | OnCache o' => bare_step K_eqb o' c
  | OpClose => (Ok VNone, c)
  end.

Fixpoint bare_run_op (ops : list (Op K V)) (c : Cache K V)
  : list (result K (Value V)) * Cache K V :=
  match ops with
  | [] => ([], c)
  | o :: ops' =>
      let (r, c') := bare_step_op o c in
      let (rs, c'') := bare_run_op ops' c' in
      (r :: rs, c'')
  end.

(** Persistence is off: falsy filename, bare class, no shelf. *)
Definition disabled (w : World K V) : Prop :=
  truthy (filename w) = false /\
  wrapped_hooked w = false /\
  persistent_dict w = None.

(** What no method changes after construction, short of opening and
    closing the shelf: the filename, the shelf handle, the class of
    [wrapped] and its capacity. *)
Definition config (w : World K V) : option string * option Shelf * bool * Z :=
  (filename w, persistent_dict w, wrapped_hooked w, maxsize (wrapped w)).

Definition stable (c : option string * option Shelf * bool * Z)
    (w : World K V) : Prop :=
  config w = c.

(** A computation keeps a property of the world, whatever it returns. *)
Definition preserves {A} (P : World K V -> Prop) (m : M K (World K V) A)
  : Prop :=
  forall w, P w -> P (snd (m w)).

End Vocabulary.


(** * Concrete inputs: int keys and values *)

(** A fresh [PersistentCache(Cache, "cache.db", maxsize)] over a database
    with contents [d]. *)
Definition fresh (maxsize : Z) (d : Store Z Z) : World Z Z :=
  PersistentCache___init__ (Some "cache.db"%string) maxsize d.

(** Two keys with the same hash: [hash(-1) == hash(-2) == -2]. *)
Definition colliding_ops : list (Op Z Z) :=
  [OnCache (OpSet (-1) 10); OnCache (OpSet (-2) 20); OnCache (OpDelete (-1))].

(** A database written by an earlier session of capacity at least 2. *)
Definition two_records : Store Z Z :=
  [("1"%string, (1, 10)); ("2"%string, (2, 20))].

(** A database into which a record was put by hand under a store key that
    is not the hash of its key, in front of a regular record. *)
Definition orphan_store : Store Z Z :=
  [("orphan"%string, (1, 10)); ("2"%string, (2, 20))].

(** The same two records met in the other order. *)
Definition orphan_store_rev : Store Z Z :=
  [("2"%string, (2, 20)); ("orphan"%string, (1, 10))].

Definition small_keys : list Z := [1; 2; 3].

Definition one_record : Store Z Z := [("1"%string, (1, 10))].

Definition sample_ops : list (CacheOp Z Z) :=
  [OpSet 2 20; OpSet 3 30; OpDelete 2; OpGet 3; OpSet 1 11].

(** The world the colliding operations end in, up to the last delete: key
    [-2] is in memory, its store key is gone. *)
Definition after_collision : World Z Z :=
  snd (run Z.eqb int_hash colliding_ops (fresh 2 [])).

(** The world after one set on a fresh store of capacity 2. *)
Definition after_one_set : World Z Z :=
  snd (run Z.eqb int_hash [OnCache (OpSet 1 10)] (fresh 2 [])).
From Stdlib Require Import Permutation.

(** * Further methods *)
Section FurtherMethods.
Variables (K V : Type).
Variable K_eqb : K -> K -> bool.
Variable hash : K -> Z.

(** What the [try] body of [__del__] can raise: an exception of a shelf
    method, or the [AttributeError] of [None.close]. *)
Inductive del_exn : Type :=
| Method_exn (e : exn K)
| AttributeError_NoneType_close.

Inductive try_outcome : Type :=
| Completed
| Raised (e : del_exn)
| Unfinished.

(** The [try] body of [__del__]:
    [self.persistent_dict.close(); self.persistent_dict = None]. *)
Definition del_try_body (w : World K V) : try_outcome * World K V :=
  match persistent_dict w with
  | None => (Raised AttributeError_NoneType_close, w)
  | Some sh =>
      match Shelf_close sh w with
      | (Ok _, w1) => (Completed, with_persistent_dict None w1)
      | (Raise e, w1) => (Raised (Method_exn e), w1)
      | (OutOfFuel, w1) => (Unfinished, w1)
      end
  end.

(** [__del__]: the body under [try], with [except Exception: pass]. *)
Definition PersistentCache___del__ : M K (World K V) unit :=
  fun w =>
    match del_try_body w with
    | (Completed, w1) => (Ok tt, w1)
    | (Raised _, w1) => (Ok tt, w1)
    | (Unfinished, w1) => (OutOfFuel, w1)
    end.

(** [cache.popitem()]: [__getattr__] forwards to the wrapped cache, whose
    [popitem] deletes through [del self[key]]. *)
Definition PersistentCache___getattr___popitem : M K (World K V) (K * V) :=
  initialize_if_not_initialized K_eqb hash ;;;
  Cache_popitem K_eqb (@wrapped K V) (wrapped___delitem__ K_eqb hash).

(** A world as collision-free use leaves it: persistence on under a truthy
    filename, the shelf open on that name, the store the exact mirror of
    the cache, no two cached keys under one store key, every cached key in
    [U], and the cache within its capacity. *)
Definition settled (U : list K) (w : World K V) : Prop :=
  exists items ms name l,
    w = opened_world hash items ms (Some name) (DbfilenameShelf name) [] l /\
    truthy (Some name) = true /\
    NoDup (map (hash_key hash) (dict_keys items)) /\
    incl (dict_keys items) U /\
    Z.of_nat (List.length items) <= Z.max 0 ms.
End FurtherMethods.

Arguments AttributeError_NoneType_close {K}.
Arguments Completed {K}.
Arguments Unfinished {K}.

(** ** Further concrete inputs *)

(** A cache of capacity 2 at capacity, after the sample operations. *)
Definition sample_world : World Z Z :=
  snd (run Z.eqb int_hash (map OnCache sample_ops) (fresh 2 one_record)).

(** The world after the colliding operations and one more set: key [-2]
    is the oldest item in memory and has no store record. *)
Definition desynchronised : World Z Z :=
  snd (run Z.eqb int_hash (colliding_ops ++ [OnCache (OpSet 3 30)])
         (fresh 2 [])).

(** * Properties *)

(** ** Dict lemmas *)
Section DictFacts.
Variables (A B : Type).
Variable A_eqb : A -> A -> bool.
Hypothesis A_eqb_spec : forall a b, A_eqb a b = true <-> a = b.

Lemma A_eqb_refl (a : A) : A_eqb a a = true.
Proof. apply A_eqb_spec; reflexivity. Qed.

Lemma A_eqb_neq (a b : A) : a <> b -> A_eqb a b = false.
Proof.
    intro H. destruct (A_eqb a b) eqn:E; [|reflexivity].
    apply A_eqb_spec in E. contradiction.
Qed.

Lemma dict_get_In (d : list (A * B)) (a : A) (b : B) :
    dict_get A_eqb d a = Some b -> In (a, b) d.
Proof.
    induction d as [|[a' b'] d IH]; simpl; [discriminate|].
    destruct (A_eqb a a') eqn:E.
    - intros [= <-]. apply A_eqb_spec in E. subst. now left.
    - intro H. right. auto.
Qed.

Lemma dict_mem_In (d : list (A * B)) (a : A) :
    dict_mem A_eqb d a = true <-> In a (dict_keys d).
Proof.
    unfold dict_mem, dict_keys.
    induction d as [|[a' b'] d IH]; simpl.
    - split; [discriminate | tauto].
    - destruct (A_eqb a a') eqn:E.
      + apply A_eqb_spec in E. subst. split; auto.
      + rewrite IH. split; [tauto|].
        intros [H|H]; [|assumption].
        subst. rewrite A_eqb_refl in E. discriminate.
Qed.

Lemma dict_mem_false (d : list (A * B)) (a : A) :
    dict_mem A_eqb d a = false <-> ~ In a (dict_keys d).
Proof.
    rewrite <- dict_mem_In.
    destruct (dict_mem A_eqb d a); split; congruence.
Qed.

Lemma dict_get_set_same (d : list (A * B)) (a : A) (b : B) :
    dict_get A_eqb (dict_set A_eqb d a b) a = Some b.
Proof.
    induction d as [|[a' b'] d IH]; simpl.
    - now rewrite A_eqb_refl.
    - destruct (A_eqb a a') eqn:E; simpl; rewrite E; auto.
Qed.

Lemma dict_set_absent (d : list (A * B)) (a : A) (b : B) :
    ~ In a (dict_keys d) -> dict_set A_eqb d a b = d ++ [(a, b)].
Proof.
    unfold dict_keys.
    induction d as [|[a' b'] d IH]; simpl; [reflexivity|].
    intro H. rewrite A_eqb_neq by (intro; subst; tauto).
    rewrite IH by tauto. reflexivity.
Qed.

Lemma dict_set_keys_present (d : list (A * B)) (a : A) (b : B) :
    In a (dict_keys d) -> dict_keys (dict_set A_eqb d a b) = dict_keys d.
Proof.
    unfold dict_keys.
    induction d as [|[a' b'] d IH]; simpl; [tauto|].
    intro H. destruct (A_eqb a a') eqn:E; simpl; [reflexivity|].
    f_equal. apply IH. destruct H as [H|H]; [|assumption].
    subst. rewrite A_eqb_refl in E. discriminate.
Qed.

Lemma dict_del_keys_incl (d : list (A * B)) (a x : A) :
    In x (dict_keys (dict_del A_eqb d a)) -> In x (dict_keys d).
Proof.
    unfold dict_keys.
    induction d as [|[a' b'] d IH]; simpl; [tauto|].
    destruct (A_eqb a a'); simpl; intuition.
Qed.

Lemma dict_del_absent (d : list (A * B)) (a : A) :
    NoDup (dict_keys d) -> ~ In a (dict_keys (dict_del A_eqb d a)).
Proof.
    unfold dict_keys.
    induction d as [|[a' b'] d IH]; simpl; [tauto|].
    intro ND. inversion ND as [|? ? Hn ND']; subst.
    destruct (A_eqb a a') eqn:E.
    - apply A_eqb_spec in E. subst. assumption.
    - simpl. intros [H|H]; [|now apply IH].
      subst. rewrite A_eqb_refl in E. discriminate.
Qed.

Lemma dict_del_NoDup (d : list (A * B)) (a : A) :
    NoDup (dict_keys d) -> NoDup (dict_keys (dict_del A_eqb d a)).
Proof.
    unfold dict_keys.
    induction d as [|[a' b'] d IH]; simpl; [auto|].
    intro ND. inversion ND as [|? ? Hn ND']; subst.
    destruct (A_eqb a a'); [assumption|].
    simpl. constructor; [|auto].
    intro H. apply Hn. exact (dict_del_keys_incl _ _ _ H).
Qed.
End DictFacts.


(** ** [str] is injective *)
Lemma to_int_not_nil (z : Z) :
  Z.to_int z <> Decimal.Pos Decimal.Nil /\
  Z.to_int z <> Decimal.Neg Decimal.Nil.
Proof.
  destruct z; simpl; split; try discriminate; intros [= H];
    exact (DecimalPos.Unsigned.to_uint_nonnil _ H).
Qed.

Lemma str_inj (z1 z2 : Z) : str z1 = str z2 -> z1 = z2.
Proof.
  unfold str. intro H.
  assert (E : Some (Z.to_int z1) = Some (Z.to_int z2)).
  { rewrite <- (NilZero.isi (Z.to_int z1)), <- (NilZero.isi (Z.to_int z2))
      by apply to_int_not_nil.
    now rewrite H. }
  injection E as E.
  rewrite <- (DecimalZ.of_to z1), <- (DecimalZ.of_to z2), E. reflexivity.
Qed.

Lemma string_eqb_spec (a b : string) : String.eqb a b = true <-> a = b.
Proof. apply String.eqb_eq. Qed.
(** ** Lazy initialisation, [close], and the read operations *)
Section Basics.
Variables (K V : Type).
Variable K_eqb : K -> K -> bool.
Variable hash : K -> Z.

#[local] Abbreviation World := (World K V).
#[local] Abbreviation initialize_at := (@initialize_if_not_initialized_at K V K_eqb hash).

Lemma initialize_at_noop (depth : nat) (w : World) :
  initialized w = true -> initialize_at depth w = (Ok tt, w).
Proof.
  unfold initialized. intro H. apply negb_true_iff in H.
  destruct depth; simpl; rewrite H; reflexivity.
Qed.

Lemma initialize_at_S (depth : nat) (w : World) :
  initialize_if_not_initialized_at K_eqb hash (S depth) w
  = if truthy (filename w) && is_None (persistent_dict w) then
      match filename w with
      | None => (Raise TypeError_NoneType, w)
      | Some name =>
          let sh := DbfilenameShelf name in
          (modify (with_persistent_dict (Some sh)) ;;;
           keys <- Shelf_keys sh ;;
           Shelf_items_for sh keys (fun hk r =>
             wrapped___setitem___with K_eqb hash
               (initialize_if_not_initialized_at K_eqb hash depth)
               (fst r) (snd r))) w
      end
    else (Ok tt, w).
Proof. reflexivity. Qed.

Lemma initialize_noop (w : World) :
  initialized w = true ->
  initialize_if_not_initialized K_eqb hash w = (Ok tt, w).
Proof. apply initialize_at_noop. Qed.

Lemma with_persistent_dict_same (w : World) :
  with_persistent_dict (persistent_dict w) w = w.
Proof. destruct w; reflexivity. Qed.

Lemma reads_once_initialized (k : K) (w : World) :
  initialized w = true ->
  PersistentCache___getitem__ K_eqb hash k w
  = (fst (Cache___getitem__ K_eqb (fun c => c) k (wrapped w)), w) /\
  PersistentCache___contains__ K_eqb hash k w
  = (fst (Cache___contains__ K_eqb (fun c => c) k (wrapped w)), w).
Proof.
  intro H.
  unfold PersistentCache___getitem__, PersistentCache___contains__, bind.
  rewrite (initialize_noop _ H). split.
  - unfold Cache___getitem__, Cache___missing__, raise.
    destruct (dict_get K_eqb (data (wrapped w)) k); reflexivity.
  - reflexivity.
Qed.

(** C8 (amended). Once the object is initialised (persistence off, or the
    shelf already open), [get] and [contains] return what the wrapped
    cache's own method returns on [wrapped] alone, a missing key raising
    the cache's [KeyError], and leave the whole world, the store
    included, exactly as it was. *)
Theorem C8_reads_pure_once_initialized (k : K) (w : World) :
  initialized w = true ->
  PersistentCache___getitem__ K_eqb hash k w
  = (fst (Cache___getitem__ K_eqb (fun c => c) k (wrapped w)), w) /\
  PersistentCache___contains__ K_eqb hash k w
  = (fst (Cache___contains__ K_eqb (fun c => c) k (wrapped w)), w).
Proof.
  intro H.
  unfold PersistentCache___getitem__, PersistentCache___contains__, bind.
  rewrite (initialize_noop _ H). split.
  - unfold Cache___getitem__, Cache___missing__, raise.
    destruct (dict_get K_eqb (data (wrapped w)) k); reflexivity.
  - reflexivity.
Qed.
End Basics.

(** ** What the methods leave alone *)
Section Frame.
Variables (K V : Type).
Variable K_eqb : K -> K -> bool.
Variable hash : K -> Z.

#[local] Abbreviation World := (World K V).
#[local] Abbreviation initialize_at := (@initialize_if_not_initialized_at K V K_eqb hash).

Lemma preserves_ret {A} (P : World -> Prop) (a : A) :
  preserves P (ret (K := K) a).
Proof. intros w H; exact H. Qed.

Lemma preserves_bind {A B} (P : World -> Prop)
    (m : M K World A) (f : A -> M K World B) :
  preserves P m -> (forall a, preserves P (f a)) -> preserves P (bind m f).
Proof.
  intros Hm Hf w H. unfold bind.
  specialize (Hm w H). destruct (m w) as [[a|e|] w1]; cbn in *; auto.
  apply Hf; assumption.
Qed.

Lemma bind_modify {S A} (f : S -> S) (k : unit -> M K S A) (s : S) :
  bind (modify f) k s = k tt (f s).
Proof. reflexivity. Qed.

Lemma bind_gets {S A B} (g : S -> A) (k : A -> M K S B) (s : S) :
  bind (gets g) k s = k (g s) s.
Proof. reflexivity. Qed.

Lemma bind_ret {S A B} (a : A) (k : A -> M K S B) (s : S) :
  bind (ret a) k s = k a s.
Proof. reflexivity. Qed.

Lemma initialized_config (w w' : World) :
  config w' = config w -> initialized w' = initialized w.
Proof.
  unfold config, initialized. intros [= -> -> _ _]. reflexivity.
Qed.

Section Stable.
Variable c : option string * option Shelf * bool * Z.
Hypothesis c_initialized :
  negb (truthy (fst (fst (fst c))) && is_None (snd (fst (fst c)))) = true.

#[local] Abbreviation stable := (@stable K V c).

Lemma stable_initialized (w : World) : stable w -> initialized w = true.
Proof.
  intro H. unfold initialized. unfold stable, config in H. subst c.
  exact c_initialized.
Qed.

Lemma preserves_initialize_at (depth : nat) :
  preserves stable (initialize_at depth).
Proof.
  intros w H. rewrite initialize_at_noop; [exact H|].
  now apply stable_initialized.
Qed.

Lemma preserves_Cache___delitem__ (key : K) :
  preserves stable
    (Cache___delitem__ K_eqb (@wrapped K V) (@with_wrapped K V) key).
Proof.
  intros w H. unfold Cache___delitem__.
  destruct (dict_mem K_eqb (data (wrapped w)) key); exact H.
Qed.

Lemma preserves_delete_callback_with (depth : nat) (key : K) :
  preserves stable (delete_callback_with hash (initialize_at depth) key).
Proof.
  unfold delete_callback_with.
  apply preserves_bind; [intros w H; exact H|]. intros _.
  apply preserves_bind; [apply preserves_initialize_at|]. intros _.
  intros w H. unfold on_persistent_dict, Shelf___delitem__.
  destruct (persistent_dict w); [|exact H].
  destruct (dict_mem String.eqb (disk w) (hash_key hash key)); exact H.
Qed.

Lemma preserves_wrapped___delitem___with (depth : nat) (key : K) :
  preserves stable
    (wrapped___delitem___with K_eqb hash (initialize_at depth) key).
Proof.
  intros w H. unfold wrapped___delitem___with.
  destruct (wrapped_hooked w).
  - revert w H. unfold DelMixin___delitem__.
    apply preserves_bind; [apply preserves_Cache___delitem__|]. intros _.
    apply preserves_delete_callback_with.
  - now apply preserves_Cache___delitem__.
Qed.

Lemma preserves_Cache_popitem (depth : nat) :
  preserves stable
    (Cache_popitem K_eqb (@wrapped K V)
       (wrapped___delitem___with K_eqb hash (initialize_at depth))).
Proof.
  intros w H. unfold Cache_popitem.
  destruct (dict_keys (data (wrapped w))) as [|key ?]; [exact H|].
  revert w H.
  apply preserves_bind.
  - intros w H. unfold Cache___getitem__, Cache___missing__, raise.
    destruct (dict_get K_eqb (data (wrapped w)) key); exact H.
  - intros value.
    apply preserves_bind; [apply preserves_wrapped___delitem___with|].
    intros _. apply preserves_ret.
Qed.

Lemma preserves_Cache_evict_while (depth fuel : nat) (size : Z) :
  preserves stable
    (Cache_evict_while K_eqb (@wrapped K V)
       (wrapped___delitem___with K_eqb hash (initialize_at depth)) fuel size).
Proof.
  induction fuel as [|fuel IH]; intros w H; simpl.
  - destruct (_ >? _); exact H.
  - destruct (_ >? _); [|exact H].
    revert w H. apply preserves_bind; [apply preserves_Cache_popitem|].
    intros _. exact IH.
Qed.

Lemma preserves_wrapped___setitem___with (depth : nat) (key : K) (value : V) :
  preserves stable
    (wrapped___setitem___with K_eqb hash (initialize_at depth) key value).
Proof.
  intros w H. unfold wrapped___setitem___with, Cache___setitem__.
  destruct (1 >? maxsize (wrapped w)); [exact H|].
  apply (preserves_bind (P := stable)); [| |exact H].
  - destruct (dict_mem K_eqb (data (wrapped w)) key);
      [apply preserves_ret | apply preserves_Cache_evict_while].
  - intros _ w0 H0. exact H0.
Qed.

Lemma preserves_Shelf_items_for (depth : nat) (sh : Shelf) (keys : list string) :
  preserves stable
    (Shelf_items_for sh keys (fun hk r =>
       wrapped___setitem___with K_eqb hash (initialize_at depth)
         (fst r) (snd r))).
Proof.
  induction keys as [|hk keys IH]; simpl; [apply preserves_ret|].
  apply preserves_bind.
  - intros w H. unfold Shelf___getitem__.
    destruct (dict_get String.eqb (disk w) hk); exact H.
  - intros r. apply preserves_bind;
      [apply preserves_wrapped___setitem___with | intros _; exact IH].
Qed.
End Stable.
End Frame.

(** ** Deletion through [DelMixin] *)
Section Deletion.
Variables (K V : Type).
Variable K_eqb : K -> K -> bool.
Variable hash : K -> Z.

#[local] Abbreviation World := (World K V).
#[local] Abbreviation initialize_at := (@initialize_if_not_initialized_at K V K_eqb hash).

Lemma Cache___delitem___wrapped (key : K) (w : World) :
  Cache___delitem__ K_eqb (@wrapped K V) (@with_wrapped K V) key w
  = if dict_mem K_eqb (data (wrapped w)) key
    then (Ok tt, after_removal K_eqb key w)
    else (Raise (KeyError (CacheKey key)), w).
Proof.
  unfold Cache___delitem__, after_removal, bare___delitem__, Cache___delitem__.
  destruct (dict_mem K_eqb (data (wrapped w)) key); reflexivity.
Qed.

Lemma delete_callback_with_initialized (depth : nat) (key : K) (w : World) :
  initialized w = true ->
  delete_callback_with hash (initialize_at depth) key w
  = on_persistent_dict
      (fun sh => Shelf___delitem__ sh (hash_key hash key))
      (with_hook_log (hook_log w ++ [key]) w).
Proof.
  intro H. unfold delete_callback_with, bind, modify.
  rewrite initialize_at_noop; [reflexivity|].
  destruct w; exact H.
Qed.

Lemma on_persistent_dict_hook_log
    (hk : string) (w : World) :
  hook_log (snd (on_persistent_dict
                   (fun sh => Shelf___delitem__ sh hk) w)) = hook_log w.
Proof.
  unfold on_persistent_dict, Shelf___delitem__.
  destruct (persistent_dict w); [|reflexivity].
  destruct (dict_mem String.eqb (disk w) hk); reflexivity.
Qed.

(** C4. On the hooked cache ([DelMixin] in front of the wrapped class),
    deleting a key absent from memory raises the [KeyError] the wrapped
    cache's own [__delitem__] raises and leaves the world untouched: the
    store is as it was and the callback log has not grown.  When the key is
    present, the delete is the callback run once on the world in which the
    removal has already been made; on an initialised object the callback
    log grows by exactly that key, and the delete forwarded by
    [PersistentCache.__getattr__] is that very call. *)
Theorem C4_delete_absent_and_present (key : K) (w : World) :
  wrapped_hooked w = true ->
  (dict_mem K_eqb (data (wrapped w)) key = false ->
     fst (bare___delitem__ K_eqb key (wrapped w))
       = Raise (KeyError (CacheKey key)) /\
     wrapped___delitem__ K_eqb hash key w
       = (Raise (KeyError (CacheKey key)), w)) /\
  (dict_mem K_eqb (data (wrapped w)) key = true ->
     fst (bare___delitem__ K_eqb key (wrapped w)) = Ok tt /\
     wrapped___delitem__ K_eqb hash key w
       = delete_callback K_eqb hash key (after_removal K_eqb key w) /\
     (initialized w = true ->
        hook_log (snd (wrapped___delitem__ K_eqb hash key w))
          = hook_log w ++ [key])) /\
  (initialized w = true ->
     PersistentCache___getattr_____delitem__ K_eqb hash key w
       = wrapped___delitem__ K_eqb hash key w).
Proof.
  intro Hh.
  assert (Hfwd : initialized w = true ->
                 PersistentCache___getattr_____delitem__ K_eqb hash key w
                 = wrapped___delitem__ K_eqb hash key w).
  { intro Hi. unfold PersistentCache___getattr_____delitem__, bind.
    rewrite (initialize_noop _ _ _ Hi). reflexivity. }
  unfold wrapped___delitem__ in *.
  unfold wrapped___delitem___with, DelMixin___delitem__, bind in *.
  rewrite Hh, Cache___delitem___wrapped in *.
  unfold bare___delitem__, Cache___delitem__.
  split; [|split; [|exact Hfwd]]; intro Hm; rewrite Hm; cbn [fst snd].
  - split; reflexivity.
  - split; [reflexivity|]. split; [reflexivity|].
    intro Hi. unfold initialize_if_not_initialized.
    rewrite delete_callback_with_initialized by (destruct w; exact Hi).
    rewrite on_persistent_dict_hook_log. destruct w; reflexivity.
Qed.

(** C10. With the shelf open, deleting a key that is in memory but whose
    store key is absent from the store raises the store's [KeyError] out of
    the delete, and the key's removal from memory stays: [wrapped] has lost
    the key while the store is unchanged. *)
Theorem C10_delete_store_key_absent (key : K) (w : World) :
  wrapped_hooked w = true ->
  is_None (persistent_dict w) = false ->
  dict_mem K_eqb (data (wrapped w)) key = true ->
  dict_mem String.eqb (disk w) (hash_key hash key) = false ->
  let r := PersistentCache___getattr_____delitem__ K_eqb hash key w in
  fst r = Raise (KeyError (StoreKey (hash_key hash key))) /\
  data (wrapped (snd r)) = dict_del K_eqb (data (wrapped w)) key /\
  disk (snd r) = disk w.
Proof.
  intros Hh Hp Hm Hd.
  assert (Hi : initialized w = true).
  { unfold initialized. rewrite Hp, andb_false_r. reflexivity. }
  unfold PersistentCache___getattr_____delitem__, bind.
  rewrite (initialize_noop _ _ _ Hi).
  unfold wrapped___delitem__, wrapped___delitem___with, DelMixin___delitem__,
    bind.
  rewrite Hh, Cache___delitem___wrapped, Hm.
  unfold initialize_if_not_initialized.
  rewrite delete_callback_with_initialized by (destruct w; exact Hi).
  unfold on_persistent_dict, Shelf___delitem__.
  destruct w as [c h f p d l]. cbn in *.
  destruct p as [sh|]; [|discriminate].
  rewrite Hd. cbn. unfold bare___delitem__, Cache___delitem__.
  rewrite Hm. auto.
Qed.
End Deletion.

(** ** Set, then get *)
Section RoundTrip.
Variables (K V : Type).
Variable K_eqb : K -> K -> bool.
Variable hash : K -> Z.
Hypothesis K_eqb_spec : forall a b, K_eqb a b = true <-> a = b.

#[local] Abbreviation World := (World K V).
#[local] Abbreviation initialize_at := (@initialize_if_not_initialized_at K V K_eqb hash).

Lemma initialize_at_initialized (depth : nat) (w : World) :
  initialized (snd (initialize_at (S depth) w)) = true.
Proof.
  destruct (initialized w) eqn:Hi.
  - rewrite initialize_at_noop by exact Hi. exact Hi.
  - unfold initialized in Hi. apply negb_false_iff in Hi.
    simpl. rewrite Hi.
    destruct (filename w) as [name|] eqn:Hf; [|discriminate].
    set (c := (Some name, Some (DbfilenameShelf name), wrapped_hooked w,
               maxsize (wrapped w))).
    assert (Hc : negb (truthy (fst (fst (fst c)))
                       && is_None (snd (fst (fst c)))) = true).
    { cbn. rewrite andb_false_r. reflexivity. }
    apply (stable_initialized (c := c) Hc).
    rewrite bind_modify. unfold Shelf_keys. rewrite bind_gets.
    apply (preserves_Shelf_items_for K_eqb hash Hc).
    unfold stable, config, c. cbn. rewrite Hf. reflexivity.
Qed.

Lemma initialize_initialized (w : World) :
  initialized (snd (initialize_if_not_initialized K_eqb hash w)) = true.
Proof. apply initialize_at_initialized. Qed.

Lemma wrapped___setitem___initialized (key : K) (value : V) (w : World) :
  initialized w = true ->
  initialized (snd (wrapped___setitem__ K_eqb hash key value w)) = true.
Proof.
  intro Hi.
  assert (Hc : negb (truthy (fst (fst (fst (config w))))
                     && is_None (snd (fst (fst (config w))))) = true)
    by exact Hi.
  apply (stable_initialized (c := config w) Hc).
  apply (preserves_wrapped___setitem___with K_eqb hash Hc). reflexivity.
Qed.

Lemma wrapped___setitem___Ok (key : K) (value : V) (w w' : World) :
  wrapped___setitem__ K_eqb hash key value w = (Ok tt, w') ->
  dict_get K_eqb (data (wrapped w')) key = Some value.
Proof.
  unfold wrapped___setitem__, wrapped___setitem___with, Cache___setitem__.
  destruct (1 >? maxsize (wrapped w)); [discriminate|].
  unfold bind.
  match goal with
  | |- context [match ?m w with _ => _ end] =>
      destruct (m w) as [[[]|e|] w1]
  end; try discriminate.
  unfold modify. intros [= <-]. cbn.
  apply dict_get_set_same. exact K_eqb_spec.
Qed.

Lemma set_then_get (key : K) (value : V) (w w' : World) :
  PersistentCache___setitem__ K_eqb hash key value w = (Ok tt, w') ->
  PersistentCache___getitem__ K_eqb hash key w' = (Ok value, w').
Proof.
  unfold PersistentCache___setitem__, bind.
  pose proof (initialize_initialized w) as Hi.
  destruct (initialize_if_not_initialized K_eqb hash w) as [[[]|e|] w1];
    try discriminate.
  cbn in Hi.
  pose proof (wrapped___setitem___initialized key value w1 Hi) as Hi2.
  destruct (wrapped___setitem__ K_eqb hash key value w1) as [[[]|e|] w2] eqn:E2;
    try discriminate.
  cbn in Hi2. apply wrapped___setitem___Ok in E2.
  assert (Hget : forall w3 : World,
             initialized w3 = true ->
             data (wrapped w3) = data (wrapped w2) ->
             PersistentCache___getitem__ K_eqb hash key w3 = (Ok value, w3)).
  { intros w3 H3 Hd. unfold PersistentCache___getitem__, bind.
    rewrite (initialize_noop _ _ _ H3).
    unfold Cache___getitem__. rewrite Hd, E2. reflexivity. }
  destruct (persistent_dict w2) as [sh|] eqn:Hp.
  - unfold Shelf___setitem__, Shelf_sync, modify, ret. intros [= <-].
    apply Hget; [|reflexivity].
    destruct w2; exact Hi2.
  - intros [= <-]. apply Hget; [exact Hi2 | reflexivity].
Qed.
End RoundTrip.

(** ** Every operation runs within its iteration bounds *)
Section Total.
Variables (K V : Type).
Variable K_eqb : K -> K -> bool.
Variable hash : K -> Z.

#[local] Abbreviation World := (World K V).
#[local] Abbreviation initialize_at := (@initialize_if_not_initialized_at K V K_eqb hash).
#[local] Abbreviation del_at depth :=
  (wrapped___delitem___with K_eqb hash (initialize_at depth)).

Lemma dict_del_length {A B} (eqb : A -> A -> bool) (d : list (A * B)) (a : A) :
  dict_mem eqb d a = true ->
  S (List.length (dict_del eqb d a)) = List.length d.
Proof.
  unfold dict_mem. induction d as [|[a' b'] d IH]; cbn; [discriminate|].
  destruct (eqb a a'); [reflexivity|].
  intro H. cbn. rewrite IH by exact H. reflexivity.
Qed.

Lemma delete_callback_bounded (depth : nat) (key : K) (w : World) :
  initialized w = true ->
  fst (delete_callback_with hash (initialize_at depth) key w) <> OutOfFuel /\
  wrapped (snd (delete_callback_with hash (initialize_at depth) key w))
  = wrapped w.
Proof.
  intro Hi. rewrite delete_callback_with_initialized by exact Hi.
  unfold on_persistent_dict, Shelf___delitem__.
  destruct w as [c h f p d l]. cbn.
  destruct p; [|split; [discriminate|reflexivity]].
  destruct (dict_mem String.eqb d (hash_key hash key));
    split; cbn; try discriminate; reflexivity.
Qed.

Lemma wrapped___delitem___bounded (depth : nat) (key : K) (w : World) :
  initialized w = true ->
  fst (del_at depth key w) <> OutOfFuel /\
  (fst (del_at depth key w) = Ok tt ->
   S (List.length (data (wrapped (snd (del_at depth key w)))))
   = List.length (data (wrapped w))).
Proof.
  intro Hi. unfold wrapped___delitem___with, DelMixin___delitem__, bind.
  rewrite !Cache___delitem___wrapped.
  destruct (dict_mem K_eqb (data (wrapped w)) key) eqn:Hm.
  - assert (Hlen : S (List.length (data (wrapped (after_removal K_eqb key w))))
                   = List.length (data (wrapped w))).
    { unfold after_removal, bare___delitem__, Cache___delitem__.
      rewrite Hm. cbn. apply dict_del_length. exact Hm. }
    destruct (wrapped_hooked w); [|split; [discriminate | intros _; exact Hlen]].
    assert (Hi' : initialized (after_removal K_eqb key w) = true)
      by (destruct w; exact Hi).
    destruct (@delete_callback_bounded depth key _ Hi') as [H1 H2].
    split; [exact H1|]. intros _. rewrite H2. exact Hlen.
  - destruct (wrapped_hooked w); split; cbn; discriminate.
Qed.

Lemma Cache_popitem_bounded (depth : nat) (w : World) :
  initialized w = true ->
  let r := Cache_popitem K_eqb (@wrapped K V) (del_at depth) w in
  fst r <> OutOfFuel /\
  (forall x, fst r = Ok x ->
   S (List.length (data (wrapped (snd r)))) = List.length (data (wrapped w))).
Proof.
  intro Hi. cbv zeta. unfold Cache_popitem.
  destruct (dict_keys (data (wrapped w))) as [|key ?].
  { split; [discriminate | intros x H; discriminate H]. }
  unfold bind, Cache___getitem__, Cache___missing__, raise.
  destruct (dict_get K_eqb (data (wrapped w)) key) as [v|].
  - destruct (@wrapped___delitem___bounded depth key w Hi) as [H1 H2].
    destruct (del_at depth key w) as [[[]|e|] w1]; cbn in *.
    + split; [discriminate | intros x _; apply H2; reflexivity].
    + split; [discriminate | intros x H; discriminate H].
    + contradiction.
  - split; [discriminate | intros x H; discriminate H].
Qed.

Lemma Cache_evict_while_bounded (depth fuel : nat) (w : World) :
  initialized w = true ->
  (List.length (data (wrapped w)) <= fuel)%nat ->
  1 <= maxsize (wrapped w) ->
  fst (Cache_evict_while K_eqb (@wrapped K V) (del_at depth) fuel 1 w)
  <> OutOfFuel.
Proof.
  revert w. induction fuel as [|fuel IH]; intros w Hi Hlen Hms; simpl.
  - unfold currsize.
    replace (List.length (data (wrapped w))) with O by lia.
    replace (Z.of_nat 0 + 1 >? maxsize (wrapped w)) with false
      by (symmetry; rewrite Z.gtb_ltb; apply Z.ltb_ge; lia).
    discriminate.
  - destruct (_ >? _); [|discriminate].
    unfold bind.
    destruct (@Cache_popitem_bounded depth w Hi) as [H1 H2].
    pose proof (@preserves_Cache_popitem K V K_eqb hash (config w) Hi depth
                  w eq_refl) as Hc.
    destruct (Cache_popitem K_eqb (@wrapped K V) (del_at depth) w)
      as [[x|e|] w1]; cbn in *; [|discriminate|contradiction].
    specialize (H2 x eq_refl).
    apply IH.
    + rewrite (initialized_config Hc). exact Hi.
    + lia.
    + unfold stable, config in Hc. injection Hc as _ _ _ Hc. lia.
Qed.

Lemma wrapped___setitem___bounded (depth : nat) (key : K) (value : V)
    (w : World) :
  initialized w = true ->
  fst (wrapped___setitem___with K_eqb hash (initialize_at depth) key value w)
  <> OutOfFuel.
Proof.
  intro Hi. unfold wrapped___setitem___with, Cache___setitem__.
  destruct (1 >? maxsize (wrapped w)) eqn:E; [discriminate|].
  unfold bind.
  destruct (dict_mem K_eqb (data (wrapped w)) key); [discriminate|].
  pose proof (@Cache_evict_while_bounded depth _ w Hi (le_n _)) as H.
  destruct (Cache_evict_while _ _ _ _ _ w) as [[[]|e|] w1]; cbn in *;
    try discriminate.
  apply H. rewrite Z.gtb_ltb in E. apply Z.ltb_ge in E. exact E.
Qed.

Lemma Shelf_items_for_bounded (depth : nat) (sh : Shelf) (keys : list string)
    (w : World) :
  initialized w = true ->
  fst (Shelf_items_for sh keys (fun hk r =>
         wrapped___setitem___with K_eqb hash (initialize_at depth)
           (fst r) (snd r)) w)
  <> OutOfFuel.
Proof.
  revert w. induction keys as [|hk keys IH]; intros w Hi; simpl;
    [discriminate|].
  unfold bind, Shelf___getitem__.
  destruct (dict_get String.eqb (disk w) hk) as [r|]; [|discriminate].
  pose proof (@wrapped___setitem___bounded depth (fst r) (snd r) w Hi) as H.
  pose proof (@preserves_wrapped___setitem___with K V K_eqb hash (config w)
                Hi depth (fst r) (snd r) w eq_refl) as Hc.
  destruct (wrapped___setitem___with _ _ _ _ _ w) as [[[]|e|] w1];
    cbn in *; [|discriminate|contradiction].
  apply IH. rewrite (initialized_config Hc). exact Hi.
Qed.

Lemma initialize_bounded (w : World) :
  fst (initialize_if_not_initialized K_eqb hash w) <> OutOfFuel.
Proof.
  destruct (initialized w) eqn:Hi.
  - rewrite initialize_noop by exact Hi. discriminate.
  - unfold initialize_if_not_initialized, recursion_limit.
    rewrite initialize_at_S. cbv zeta.
    unfold initialized in Hi. apply negb_false_iff in Hi. rewrite Hi.
    destruct (filename w) as [name|]; [|discriminate].
    rewrite bind_modify. unfold Shelf_keys. rewrite bind_gets.
    apply Shelf_items_for_bounded.
    unfold initialized. cbn. rewrite andb_false_r. reflexivity.
Qed.

Lemma after_initialize_bounded {A} (body : M K World A) (w : World) :
  (forall w1, initialized w1 = true -> fst (body w1) <> OutOfFuel) ->
  fst ((initialize_if_not_initialized K_eqb hash ;;; body) w) <> OutOfFuel.
Proof.
  intro Hb. unfold bind.
  pose proof (initialize_bounded w) as H0.
  pose proof (initialize_initialized K_eqb hash w) as Hi.
  destruct (initialize_if_not_initialized K_eqb hash w) as [[[]|e|] w1];
    cbn in *; [|discriminate|contradiction].
  apply Hb. exact Hi.
Qed.

Lemma fmap_result_bounded {A B} (f : A -> B) (r : result K A) :
  r <> OutOfFuel -> fmap_result f r <> OutOfFuel.
Proof. destruct r; cbn; congruence. Qed.

Lemma returning_bounded {A} (f : A -> Value V) (m : M K World A) (w : World) :
  fst (m w) <> OutOfFuel -> fst (returning f m w) <> OutOfFuel.
Proof.
  unfold returning. destruct (m w) as [r w1]. cbn.
  apply fmap_result_bounded.
Qed.

(** No operation of a [PersistentCache], from any world, exhausts the
    eviction loop's iteration bound or the call-nesting bound: it returns
    or raises. *)
Lemma step_bounded (o : Op K V) (w : World) :
  fst (step K_eqb hash o w) <> OutOfFuel.
Proof.
  destruct o as [[k v|k|k|k| |]|]; cbn [step step_cache];
    apply returning_bounded.
  - unfold PersistentCache___setitem__.
    apply after_initialize_bounded. intros w1 Hi. unfold bind.
    pose proof (@wrapped___setitem___bounded recursion_limit k v w1 Hi) as H.
    unfold wrapped___setitem__, initialize_if_not_initialized.
    destruct (wrapped___setitem___with _ _ _ _ _ w1) as [[[]|e|] w2];
      cbn in *; [|discriminate|contradiction].
    destruct (persistent_dict w2); discriminate.
  - unfold PersistentCache___getitem__.
    apply after_initialize_bounded. intros w1 _.
    unfold Cache___getitem__, Cache___missing__, raise.
    destruct (dict_get K_eqb (data (wrapped w1)) k); discriminate.
  - unfold PersistentCache___contains__.
    apply after_initialize_bounded. intros w1 _. discriminate.
  - unfold PersistentCache___getattr_____delitem__.
    apply after_initialize_bounded. intros w1 Hi.
    apply (@wrapped___delitem___bounded recursion_limit k w1 Hi).
  - unfold PersistentCache___getattr___currsize.
    apply after_initialize_bounded. intros w1 _. discriminate.
  - unfold PersistentCache___getattr___maxsize.
    apply after_initialize_bounded. intros w1 _. discriminate.
  - unfold PersistentCache_close.
    destruct (persistent_dict w); discriminate.
Qed.

Lemma run_bounded (ops : list (Op K V)) (w : World) :
  Forall (fun r => r <> OutOfFuel) (fst (run K_eqb hash ops w)).
Proof.
  revert w. induction ops as [|o ops IH]; intro w; cbn; [constructor|].
  pose proof (step_bounded o w) as H.
  destruct (step K_eqb hash o w) as [r w1].
  specialize (IH w1).
  destruct (run K_eqb hash ops w1) as [rs w2].
  cbn in *. constructor; assumption.
Qed.
End Total.

(** ** Persistence switched off *)
Section Disabled.
Variables (K V : Type).
Variable K_eqb : K -> K -> bool.
Variable hash : K -> Z.

#[local] Abbreviation World := (World K V).
#[local] Abbreviation initialize_at := (@initialize_if_not_initialized_at K V K_eqb hash).
#[local] Abbreviation id_cache := (fun c : Cache K V => c).
#[local] Abbreviation put_cache := (fun (c : Cache K V) (_ : Cache K V) => c).

Lemma with_wrapped_same (w : World) : with_wrapped (wrapped w) w = w.
Proof. destruct w; reflexivity. Qed.

Lemma with_wrapped_twice (c c' : Cache K V) (w : World) :
  with_wrapped c (with_wrapped c' w) = with_wrapped c w.
Proof. reflexivity. Qed.

Lemma disabled_with_wrapped (c : Cache K V) (w : World) :
  disabled w -> disabled (with_wrapped c w).
Proof. intro H; exact H. Qed.

Lemma disabled_initialized (w : World) : disabled w -> initialized w = true.
Proof. intros (Hf & _ & _). unfold initialized. rewrite Hf. reflexivity. Qed.

Lemma lift_bind {A B} (m : M K (Cache K V) A) (f : A -> M K (Cache K V) B)
    (m' : M K World A) (f' : A -> M K World B) (w : World) :
  m' w = lift m w ->
  (forall a c, f' a (with_wrapped c w) = lift (f a) (with_wrapped c w)) ->
  bind m' f' w = lift (bind m f) w.
Proof.
  intros Hm Hf. unfold bind. rewrite Hm. unfold lift.
  destruct (m (wrapped w)) as [[a|e|] c]; try reflexivity.
  rewrite Hf. unfold lift. cbn.
  destruct (f a c) as [r c']. reflexivity.
Qed.

Lemma lift_Cache___getitem__ (key : K) (w : World) :
  Cache___getitem__ K_eqb (@wrapped K V) key w
  = lift (Cache___getitem__ K_eqb id_cache key) w.
Proof.
  unfold lift, Cache___getitem__, Cache___missing__, raise.
  destruct (dict_get K_eqb (data (wrapped w)) key);
    rewrite with_wrapped_same; reflexivity.
Qed.

Lemma lift_wrapped___delitem__ (depth : nat) (key : K) (w : World) :
  wrapped_hooked w = false ->
  wrapped___delitem___with K_eqb hash (initialize_at depth) key w
  = lift (bare___delitem__ K_eqb key) w.
Proof.
  intro Hh. unfold wrapped___delitem___with. rewrite Hh.
  unfold lift, bare___delitem__, Cache___delitem__.
  destruct (dict_mem K_eqb (data (wrapped w)) key);
    [|rewrite with_wrapped_same]; reflexivity.
Qed.

Lemma lift_Cache_popitem (depth : nat) (w : World) :
  wrapped_hooked w = false ->
  Cache_popitem K_eqb (@wrapped K V)
    (wrapped___delitem___with K_eqb hash (initialize_at depth)) w
  = lift (Cache_popitem K_eqb id_cache (bare___delitem__ K_eqb)) w.
Proof.
  intro Hh. unfold Cache_popitem.
  destruct (dict_keys (data (wrapped w))) as [|key ?] eqn:Ek.
  - unfold lift. rewrite Ek, with_wrapped_same. reflexivity.
  - transitivity
      (lift (value <- Cache___getitem__ K_eqb id_cache key ;;
             bare___delitem__ K_eqb key ;;; ret (key, value)) w).
    + apply lift_bind; [apply lift_Cache___getitem__|].
      intros value c. apply lift_bind.
      * apply lift_wrapped___delitem__. exact Hh.
      * intros _ c'. unfold lift, ret. reflexivity.
    + unfold lift. rewrite Ek. reflexivity.
Qed.

Lemma lift_Cache_evict_while (depth fuel : nat) (size : Z) (w : World) :
  wrapped_hooked w = false ->
  Cache_evict_while K_eqb (@wrapped K V)
    (wrapped___delitem___with K_eqb hash (initialize_at depth)) fuel size w
  = lift (Cache_evict_while K_eqb id_cache (bare___delitem__ K_eqb) fuel size) w.
Proof.
  revert w. induction fuel as [|fuel IH]; intros w Hh.
  - unfold lift. simpl.
    destruct (_ >? _); rewrite ?with_wrapped_same; reflexivity.
  - simpl.
    destruct (currsize (wrapped w) + size >? maxsize (wrapped w)) eqn:E.
    + transitivity
        (lift (Cache_popitem K_eqb id_cache (bare___delitem__ K_eqb) ;;;
               Cache_evict_while K_eqb id_cache (bare___delitem__ K_eqb)
                 fuel size) w).
      * apply lift_bind; [apply lift_Cache_popitem; exact Hh|].
        intros _ c. apply IH. exact Hh.
      * unfold lift. simpl. rewrite E. reflexivity.
    + unfold lift. simpl. rewrite E, with_wrapped_same. reflexivity.
Qed.

Lemma lift_wrapped___setitem__ (depth : nat) (key : K) (value : V) (w : World) :
  wrapped_hooked w = false ->
  wrapped___setitem___with K_eqb hash (initialize_at depth) key value w
  = lift (Cache___setitem__ K_eqb id_cache put_cache
            (bare___delitem__ K_eqb) key value) w.
Proof.
  intro Hh. unfold wrapped___setitem___with, Cache___setitem__.
  destruct (1 >? maxsize (wrapped w)) eqn:E.
  - unfold lift. rewrite E, with_wrapped_same. reflexivity.
  - match goal with
    | |- _ = lift ?m w =>
        transitivity
          (lift ((if dict_mem K_eqb (data (wrapped w)) key then ret tt
                  else Cache_evict_while K_eqb id_cache
                         (bare___delitem__ K_eqb)
                         (List.length (data (wrapped w))) 1) ;;;
                 modify (fun c : Cache K V =>
                   {| data := dict_set K_eqb (data c) key value;
                      maxsize := maxsize c |})) w)
    end.
    + apply lift_bind.
      * destruct (dict_mem K_eqb (data (wrapped w)) key).
        -- unfold lift, ret. rewrite with_wrapped_same. reflexivity.
        -- apply lift_Cache_evict_while. exact Hh.
      * intros _ c. reflexivity.
    + unfold lift. rewrite E. reflexivity.
Qed.

Lemma disabled_step (o : Op K V) (w : World) :
  disabled w ->
  step K_eqb hash o w
  = (fst (bare_step_op K_eqb o (wrapped w)),
     with_wrapped (snd (bare_step_op K_eqb o (wrapped w))) w).
Proof.
  intros Hd. pose proof (disabled_initialized Hd) as Hi.
  destruct Hd as (Hf & Hh & Hp).
  destruct o as [[k v|k|k|k| |]|]; cbn [step step_cache bare_step_op bare_step];
    unfold returning.
  - unfold PersistentCache___setitem__, bind.
    rewrite (initialize_noop _ _ _ Hi).
    unfold wrapped___setitem__, initialize_if_not_initialized.
    rewrite lift_wrapped___setitem__ by exact Hh. unfold lift.
    destruct (Cache___setitem__ _ _ _ _ _ _ (wrapped w)) as [[[]|e|] c];
      cbn; rewrite ?Hp; reflexivity.
  - unfold PersistentCache___getitem__, bind.
    rewrite (initialize_noop _ _ _ Hi), lift_Cache___getitem__. unfold lift.
    destruct (Cache___getitem__ _ _ _ (wrapped w)) as [r c]. reflexivity.
  - unfold PersistentCache___contains__, bind.
    rewrite (initialize_noop _ _ _ Hi). cbn.
    rewrite with_wrapped_same. reflexivity.
  - unfold PersistentCache___getattr_____delitem__, bind.
    rewrite (initialize_noop _ _ _ Hi).
    unfold wrapped___delitem__, initialize_if_not_initialized.
    rewrite lift_wrapped___delitem__ by exact Hh. unfold lift.
    destruct (bare___delitem__ K_eqb k (wrapped w)) as [r c]. reflexivity.
  - unfold PersistentCache___getattr___currsize, bind.
    rewrite (initialize_noop _ _ _ Hi). cbn.
    rewrite with_wrapped_same. reflexivity.
  - unfold PersistentCache___getattr___maxsize, bind.
    rewrite (initialize_noop _ _ _ Hi). cbn.
    rewrite with_wrapped_same. reflexivity.
  - unfold PersistentCache_close. rewrite Hp. cbn.
    rewrite with_wrapped_same. reflexivity.
Qed.

Lemma disabled_run (ops : list (Op K V)) (w : World) :
  disabled w ->
  run K_eqb hash ops w
  = (fst (bare_run_op K_eqb ops (wrapped w)),
     with_wrapped (snd (bare_run_op K_eqb ops (wrapped w))) w).
Proof.
  revert w. induction ops as [|o ops IH]; intros w Hd; simpl.
  - rewrite with_wrapped_same. reflexivity.
  - rewrite (disabled_step o Hd).
    destruct (bare_step_op K_eqb o (wrapped w)) as [r c]. cbn [fst snd].
    rewrite IH by (apply disabled_with_wrapped; exact Hd). cbn [wrapped with_wrapped].
    destruct (bare_run_op K_eqb ops c) as [rs c']. reflexivity.
Qed.

Lemma bare_run_op_OnCache (ops : list (CacheOp K V)) (c : Cache K V) :
  bare_run_op K_eqb (map OnCache ops) c = bare_run K_eqb ops c.
Proof.
  revert c. induction ops as [|o ops IH]; intro c; simpl; [reflexivity|].
  destruct (bare_step K_eqb o c) as [r c']. rewrite IH. reflexivity.
Qed.

Lemma disabled_init (f : option string) (m : Z) (d : Store K V) :
  truthy f = false -> disabled (PersistentCache___init__ f m d).
Proof. intro H. unfold disabled. cbn. auto. Qed.

(** C3. A [PersistentCache] built with [filename=None] answers every
    sequence of get, set, delete, contains and attribute reads with the
    outcomes (returned values and raised errors) the bare cache gives, and
    holds the bare cache's state; the shelf is never opened, the store is
    never written, [wrapped] is the bare class (no callback installed) and
    the callback has never run.  Every operation returns or raises. *)
Theorem C3_disabled_behaves_as_bare_cache
    (ops : list (CacheOp K V)) (m : Z) (d : Store K V) :
  let w := PersistentCache___init__ None m d in
  let r := run K_eqb hash (map OnCache ops) w in
  let b := bare_run K_eqb ops (Cache___init__ K V m) in
  fst r = fst b /\
  wrapped (snd r) = snd b /\
  persistent_dict (snd r) = None /\
  disk (snd r) = d /\
  wrapped_hooked (snd r) = false /\
  hook_log (snd r) = [] /\
  Forall (fun x => x <> OutOfFuel) (fst r).
Proof.
  cbv zeta. split; [|split; [|split; [|split; [|split; [|split]]]]];
    try apply run_bounded;
    rewrite (disabled_run _ (disabled_init None m d eq_refl));
    rewrite bare_run_op_OnCache; reflexivity.
Qed.

(** C9. The empty string as filename switches persistence off just as
    [None] does: whatever operations follow, [close] included, both objects
    give the same outcomes and hold the same cache, and with the empty
    filename the shelf stays unopened, the store unwritten, [wrapped] the
    bare class and the callback never run.  Every operation returns or
    raises. *)
Theorem C9_empty_filename_disables_persistence
    (ops : list (Op K V)) (m : Z) (d : Store K V) :
  let r := run K_eqb hash ops (PersistentCache___init__ (Some EmptyString) m d) in
  let r0 := run K_eqb hash ops (PersistentCache___init__ None m d) in
  fst r = fst r0 /\
  wrapped (snd r) = wrapped (snd r0) /\
  persistent_dict (snd r) = None /\
  disk (snd r) = d /\
  wrapped_hooked (snd r) = false /\
  hook_log (snd r) = [] /\
  Forall (fun x => x <> OutOfFuel) (fst r).
Proof.
  cbv zeta. split; [|split; [|split; [|split; [|split; [|split]]]]];
    try apply run_bounded;
    rewrite (disabled_run _ (disabled_init (Some EmptyString) m d eq_refl));
    rewrite ?(disabled_run _ (disabled_init None m d eq_refl));
    reflexivity.
Qed.

(** C7. [close()] never raises; a second [close()] changes nothing after
    the first; and on any object whose [persistent_dict] is [None]
    (freshly built, already closed, or with persistence off, whatever
    operations came before) [close()] returns normally and leaves the
    object as it was. *)
Theorem C7_close_idempotent :
  (forall w : World, fst (PersistentCache_close w) = Ok tt) /\
  (forall w : World,
      PersistentCache_close (snd (PersistentCache_close w))
      = (Ok tt, snd (PersistentCache_close w))) /\
  (forall w : World,
      PersistentCache_close (with_persistent_dict None w)
      = (Ok tt, with_persistent_dict None w)) /\
  (forall (f : option string) (m : Z) (d : Store K V),
      PersistentCache_close (PersistentCache___init__ f m d)
      = (Ok tt, PersistentCache___init__ f m d)) /\
  (forall (ops : list (Op K V)) (m : Z) (d : Store K V),
      let w := snd (run K_eqb hash ops (PersistentCache___init__ None m d)) in
      PersistentCache_close w = (Ok tt, w)) /\
  (forall (ops : list (Op K V)) (m : Z) (d : Store K V),
      let w := snd (run K_eqb hash ops
                      (PersistentCache___init__ (Some EmptyString) m d)) in
      PersistentCache_close w = (Ok tt, w)).
Proof.
  split; [|split; [|split; [|split; [|split]]]].
  - intro w. unfold PersistentCache_close.
    destruct (persistent_dict w); reflexivity.
  - intro w. unfold PersistentCache_close.
    destruct (persistent_dict w) eqn:E; cbn; [reflexivity|].
    rewrite E. reflexivity.
  - reflexivity.
  - reflexivity.
  - intros ops m d. cbv zeta.
    rewrite (disabled_run _ (disabled_init None m d eq_refl)). reflexivity.
  - intros ops m d. cbv zeta.
    rewrite (disabled_run _ (disabled_init (Some EmptyString) m d eq_refl)).
    reflexivity.
Qed.
End Disabled.

(** ** Persistence on, shelf open: what eviction and insertion do *)
Section Opened.
Variables (K V : Type).
Variable K_eqb : K -> K -> bool.
Variable hash : K -> Z.
Hypothesis K_eqb_spec : forall a b, K_eqb a b = true <-> a = b.

#[local] Abbreviation World := (World K V).
#[local] Abbreviation initialize_at := (@initialize_if_not_initialized_at K V K_eqb hash).
#[local] Abbreviation entry := (@entry K V hash).
#[local] Abbreviation opened_world := (@opened_world K V hash).
#[local] Abbreviation del_at depth :=
  (wrapped___delitem___with K_eqb hash (initialize_at depth)).

Lemma opened_delitem (depth : nat) (k : K) (c : Cache K V)
    (f : option string) (sh : Shelf) (d : Store K V) (l : list K) :
  dict_mem K_eqb (data c) k = true ->
  dict_mem String.eqb d (hash_key hash k) = true ->
  del_at depth k
    {| wrapped := c; wrapped_hooked := true; filename := f;
       persistent_dict := Some sh; disk := d; hook_log := l |}
  = (Ok tt,
     {| wrapped := {| data := dict_del K_eqb (data c) k;
                      maxsize := maxsize c |};
        wrapped_hooked := true; filename := f;
        persistent_dict := Some sh;
        disk := dict_del String.eqb d (hash_key hash k);
        hook_log := l ++ [k] |}).
Proof.
  intros Hm Hd.
  unfold wrapped___delitem___with. cbn [wrapped_hooked].
  unfold DelMixin___delitem__, bind.
  rewrite Cache___delitem___wrapped. cbn [wrapped]. rewrite Hm.
  rewrite delete_callback_with_initialized
    by (unfold initialized; cbn; rewrite andb_false_r; reflexivity).
  unfold on_persistent_dict, Shelf___delitem__, after_removal,
    bare___delitem__, Cache___delitem__.
  cbn. rewrite Hm, Hd. reflexivity.
Qed.

Lemma opened_popitem (depth : nat) (k0 : K) (v0 : V) (t : list (K * V))
    (ms : Z) (f : option string) (sh : Shelf) (rest : Store K V)
    (l : list K) :
  Cache_popitem K_eqb (@wrapped K V) (del_at depth)
    (opened_world ((k0, v0) :: t) ms f sh rest l)
  = (Ok (k0, v0), opened_world t ms f sh rest (l ++ [k0])).
Proof.
  unfold Cache_popitem, opened_world. cbn [wrapped data dict_keys map fst].
  unfold bind, Cache___getitem__. cbn [wrapped data dict_get].
  rewrite (A_eqb_refl _ K_eqb_spec).
  rewrite opened_delitem.
  - cbn. rewrite (A_eqb_refl _ K_eqb_spec), String.eqb_refl. reflexivity.
  - unfold dict_mem. cbn. rewrite (A_eqb_refl _ K_eqb_spec). reflexivity.
  - unfold dict_mem. cbn. rewrite String.eqb_refl. reflexivity.
Qed.

Lemma Zgtb_false (a b : Z) : (a >? b) = false <-> a <= b.
Proof. rewrite Z.gtb_ltb. apply Z.ltb_ge. Qed.

Lemma excess_zero (items : list (K * V)) (ms : Z) :
  (Z.of_nat (List.length items) + 1 >? ms) = false -> excess items ms = O.
Proof. unfold excess. intro H. apply Zgtb_false in H. lia. Qed.

Lemma excess_succ (x : K * V) (t : list (K * V)) (ms : Z) :
  (Z.of_nat (List.length (x :: t)) + 1 >? ms) = true ->
  excess (x :: t) ms = S (excess t ms).
Proof.
  unfold excess. intro H. cbn [List.length] in *.
  assert (Z.of_nat (S (List.length t)) + 1 > ms) by (apply Z.gtb_gt; exact H).
  lia.
Qed.

Lemma opened_evict_while (depth fuel : nat) (items : list (K * V)) (ms : Z)
    (f : option string) (sh : Shelf) (rest : Store K V) (l : list K) :
  1 <= ms -> (List.length items <= fuel)%nat ->
  Cache_evict_while K_eqb (@wrapped K V) (del_at depth) fuel 1
    (opened_world items ms f sh rest l)
  = (Ok tt,
     opened_world (skipn (excess items ms) items) ms f sh rest
       (l ++ evicted_by ms items)).
Proof.
  intro Hms. revert items l.
  induction fuel as [|fuel IH]; intros items l Hlen.
  - destruct items; [|cbn in Hlen; lia].
    cbn. replace (1 >? ms) with false by (symmetry; apply Zgtb_false; lia).
    unfold evicted_by. rewrite excess_zero by (cbn; apply Zgtb_false; lia).
    cbn. rewrite app_nil_r. reflexivity.
  - cbn [Cache_evict_while]. unfold currsize.
    cbn [wrapped opened_world data maxsize].
    destruct (Z.of_nat (List.length items) + 1 >? ms) eqn:E.
    + destruct items as [|[k0 v0] t].
      { cbn in E. apply Z.gtb_gt in E. lia. }
      unfold bind. fold (opened_world ((k0, v0) :: t) ms f sh rest l).
      rewrite opened_popitem. rewrite IH by (cbn in Hlen; lia).
      unfold evicted_by. rewrite excess_succ by exact E. cbn.
      rewrite <- app_assoc. reflexivity.
    + unfold evicted_by. rewrite excess_zero by exact E. cbn.
      rewrite app_nil_r. reflexivity.
Qed.

Lemma In_skipn {A} (n : nat) (l : list A) (x : A) :
  In x (skipn n l) -> In x l.
Proof.
  intro H. rewrite <- (firstn_skipn n l). apply in_or_app. now right.
Qed.

Lemma dict_keys_skipn {A B} (n : nat) (d : list (A * B)) :
  dict_keys (skipn n d) = skipn n (dict_keys d).
Proof.
  unfold dict_keys. revert d. induction n; intros [|x d]; cbn; auto.
Qed.

Lemma opened_setitem_new (depth : nat) (k : K) (v : V) (items : list (K * V))
    (ms : Z) (f : option string) (sh : Shelf) (rest : Store K V)
    (l : list K) :
  1 <= ms -> ~ In k (dict_keys items) ->
  wrapped___setitem___with K_eqb hash (initialize_at depth) k v
    (opened_world items ms f sh rest l)
  = (Ok tt,
     {| wrapped := {| data := insert_new ms items (k, v); maxsize := ms |};
        wrapped_hooked := true; filename := f;
        persistent_dict := Some sh;
        disk := map entry (skipn (excess items ms) items) ++ rest;
        hook_log := l ++ evicted_by ms items |}).
Proof.
  intros Hms Hk.
  unfold wrapped___setitem___with, Cache___setitem__.
  cbn [wrapped opened_world maxsize data].
  replace (1 >? ms) with false by (symmetry; apply Zgtb_false; lia).
  replace (dict_mem K_eqb items k) with false
    by (symmetry; apply (dict_mem_false _ K_eqb_spec); exact Hk).
  unfold bind. fold (opened_world items ms f sh rest l).
  rewrite opened_evict_while by (auto; lia).
  unfold modify, opened_world, insert_new. cbn.
  rewrite (dict_set_absent _ K_eqb_spec); [reflexivity|].
  intro H. apply Hk. rewrite dict_keys_skipn in H.
  exact (In_skipn _ _ _ H).
Qed.

Lemma dict_keys_app {A B} (d1 d2 : list (A * B)) :
  dict_keys (d1 ++ d2) = dict_keys d1 ++ dict_keys d2.
Proof. apply map_app. Qed.

Lemma dict_keys_entry (items : list (K * V)) :
  dict_keys (map entry items) = map (hash_key hash) (dict_keys items).
Proof.
  unfold dict_keys. rewrite !map_map. reflexivity.
Qed.

Lemma dict_get_app_absent {B} (d1 d2 : list (string * B)) (a : string) :
  ~ In a (dict_keys d1) ->
  dict_get String.eqb (d1 ++ d2) a = dict_get String.eqb d2 a.
Proof.
  induction d1 as [|[a' b'] d1 IH]; cbn; [reflexivity|].
  intro H. destruct (String.eqb a a') eqn:E.
  - apply String.eqb_eq in E. subst. tauto.
  - apply IH. tauto.
Qed.

Lemma NoDup_skipn_app {A} (n : nat) (l1 l2 : list A) :
  NoDup (l1 ++ l2) -> NoDup (skipn n l1 ++ l2).
Proof.
  intro H. rewrite <- (firstn_skipn n l1), <- app_assoc in H.
  exact (NoDup_app_remove_l _ _ H).
Qed.

Lemma opened_replay (depth : nat) (ms : Z) (f : option string) (sh : Shelf)
    (rest : Store K V) :
  1 <= ms ->
  forall (items : list (K * V)) (l : list K),
  NoDup (dict_keys (map entry items ++ rest)) ->
  Forall (fun e => fst e = hash_key hash (fst (snd e))) rest ->
  Shelf_items_for sh (dict_keys rest)
    (fun hk r =>
       wrapped___setitem___with K_eqb hash (initialize_at depth)
         (fst r) (snd r))
    (opened_world items ms f sh rest l)
  = (Ok tt,
     opened_world (replay_data ms items (map snd rest)) ms f sh []
       (replay_log ms items l (map snd rest))).
Proof.
  intro Hms. induction rest as [|[hk r] rest IH]; intros items l ND WF.
  - cbn. reflexivity.
  - inversion WF as [|? ? Hhk WF']; subst. cbn [fst snd] in Hhk.
    rewrite dict_keys_app in ND. cbn [dict_keys map fst] in ND.
    pose proof (NoDup_remove_2 _ _ _ ND) as Hnot.
    assert (Hn1 : ~ In hk (dict_keys (map entry items))).
    { intro H. apply Hnot. apply in_or_app. now left. }
    assert (Hk : ~ In (fst r) (dict_keys items)).
    { intro H. apply Hn1. rewrite dict_keys_entry, Hhk.
      apply in_map. exact H. }
    cbn [dict_keys map fst Shelf_items_for]. unfold bind at 1.
    unfold Shelf___getitem__ at 1. cbn [disk opened_world].
    rewrite dict_get_app_absent by exact Hn1. cbn [dict_get].
    rewrite String.eqb_refl. unfold bind at 1.
    rewrite opened_setitem_new by assumption.
    assert (Hw :
      {| wrapped := {| data := insert_new ms items (fst r, snd r);
                       maxsize := ms |};
         wrapped_hooked := true; filename := f;
         persistent_dict := Some sh;
         disk := map entry (skipn (excess items ms) items) ++ (hk, r) :: rest;
         hook_log := l ++ evicted_by ms items |}
      = opened_world (insert_new ms items r) ms f sh rest
          (l ++ evicted_by ms items)).
    { unfold opened_world, insert_new. destruct r as [k v]. cbn [fst snd] in *.
      rewrite map_app, <- app_assoc. cbn. subst hk. reflexivity. }
    rewrite Hw. fold (dict_keys rest).
    rewrite IH; [reflexivity| |exact WF'].
    unfold insert_new. rewrite map_app, <- app_assoc, dict_keys_app.
    cbn. rewrite <- skipn_map, dict_keys_skipn.
    apply NoDup_skipn_app. rewrite <- Hhk. exact ND.
Qed.
End Opened.

(** ** The store as a mirror of the cache *)
Section Mirror.
Variables (K V : Type).
Variable K_eqb : K -> K -> bool.
Variable hash : K -> Z.
Hypothesis K_eqb_spec : forall a b, K_eqb a b = true <-> a = b.

#[local] Abbreviation World := (World K V).
#[local] Abbreviation entry := (@entry K V hash).
#[local] Abbreviation hkeys items :=
  (map (hash_key hash) (@dict_keys K V items)).

Lemma hash_key_inj (U : list K) (a b : K) :
  collision_free hash U -> In a U -> In b U ->
  hash_key hash a = hash_key hash b -> a = b.
Proof.
  intros HU Ha Hb H. apply HU; auto. apply str_inj. exact H.
Qed.

Lemma dict_del_entry (items : list (K * V)) (k : K) :
  NoDup (hkeys items) ->
  In k (dict_keys items) ->
  dict_del String.eqb (map entry items) (hash_key hash k)
  = map entry (dict_del K_eqb items k).
Proof.
  induction items as [|[k' v'] items IH]; cbn; [tauto|].
  intros ND Hin. inversion ND as [|? ? Hn ND']; subst.
  destruct (K_eqb k k') eqn:E.
  - apply K_eqb_spec in E. subst. rewrite String.eqb_refl. reflexivity.
  - destruct Hin as [Hin|Hin];
      [subst; rewrite (A_eqb_refl _ K_eqb_spec) in E; discriminate|].
    destruct (String.eqb (hash_key hash k) (hash_key hash k')) eqn:E'.
    + apply String.eqb_eq in E'. exfalso. apply Hn. rewrite <- E'.
      apply in_map. exact Hin.
    + cbn. rewrite IH by assumption. reflexivity.
Qed.

Lemma dict_set_entry_present (items : list (K * V)) (k : K) (v : V) :
  NoDup (hkeys items) ->
  In k (dict_keys items) ->
  dict_set String.eqb (map entry items) (hash_key hash k) (k, v)
  = map entry (dict_set K_eqb items k v).
Proof.
  induction items as [|[k' v'] items IH]; cbn; [tauto|].
  intros ND Hin. inversion ND as [|? ? Hn ND']; subst.
  destruct (K_eqb k k') eqn:E.
  - apply K_eqb_spec in E. subst. rewrite String.eqb_refl. reflexivity.
  - destruct Hin as [Hin|Hin];
      [subst; rewrite (A_eqb_refl _ K_eqb_spec) in E; discriminate|].
    destruct (String.eqb (hash_key hash k) (hash_key hash k')) eqn:E'.
    + apply String.eqb_eq in E'. exfalso. apply Hn. rewrite <- E'.
      apply in_map. exact Hin.
    + cbn. rewrite IH by assumption. reflexivity.
Qed.

Lemma dict_set_entry_absent (items : list (K * V)) (k : K) (v : V) :
  ~ In (hash_key hash k) (hkeys items) ->
  dict_set String.eqb (map entry items) (hash_key hash k) (k, v)
  = map entry (items ++ [(k, v)]).
Proof.
  intro H. rewrite (dict_set_absent _ string_eqb_spec).
  - rewrite map_app. reflexivity.
  - rewrite dict_keys_entry. exact H.
Qed.

Lemma hkeys_absent (U : list K) (items : list (K * V)) (k : K) :
  collision_free hash U -> incl (dict_keys items) U -> In k U ->
  ~ In k (dict_keys items) ->
  ~ In (hash_key hash k) (hkeys items).
Proof.
  intros HU Hsub Hk Hnot H. apply in_map_iff in H.
  destruct H as (k' & Heq & Hin). apply Hnot.
  assert (E : k = k') by (eapply hash_key_inj; eauto).
  rewrite E. exact Hin.
Qed.

#[local] Abbreviation opened_world := (@opened_world K V hash).

Lemma opened_world_initialized (items : list (K * V)) (ms : Z)
    (f : option string) (sh : Shelf) (rest : Store K V) (l : list K) :
  initialized (opened_world items ms f sh rest l) = true.
Proof. unfold initialized. cbn. rewrite andb_false_r. reflexivity. Qed.

Lemma setitem_too_large (k : K) (v : V) (items : list (K * V)) (ms : Z)
    (f : option string) (sh : Shelf) (l : list K) :
  ms < 1 ->
  PersistentCache___setitem__ K_eqb hash k v (opened_world items ms f sh [] l)
  = (Raise ValueError_value_too_large, opened_world items ms f sh [] l).
Proof.
  intro Hms. unfold PersistentCache___setitem__, bind.
  rewrite initialize_noop by apply opened_world_initialized.
  unfold wrapped___setitem__, wrapped___setitem___with, Cache___setitem__.
  cbn [wrapped opened_world maxsize].
  replace (1 >? ms) with true by (symmetry; apply Z.gtb_gt; lia).
  reflexivity.
Qed.

Lemma setitem_present (k : K) (v : V) (items : list (K * V)) (ms : Z)
    (f : option string) (sh : Shelf) (l : list K) :
  1 <= ms ->
  In k (dict_keys items) ->
  NoDup (hkeys items) ->
  PersistentCache___setitem__ K_eqb hash k v (opened_world items ms f sh [] l)
  = (Ok tt, opened_world (dict_set K_eqb items k v) ms f sh [] l).
Proof.
  intros Hms Hin ND. unfold PersistentCache___setitem__, bind.
  rewrite initialize_noop by apply opened_world_initialized.
  unfold wrapped___setitem__, wrapped___setitem___with, Cache___setitem__.
  cbn [wrapped opened_world maxsize data].
  replace (1 >? ms) with false by (symmetry; apply Zgtb_false; lia).
  replace (dict_mem K_eqb items k) with true
    by (symmetry; apply (dict_mem_In _ K_eqb_spec); exact Hin).
  unfold opened_world, Shelf___setitem__, Shelf_sync, modify, ret, bind. cbn.
  rewrite !app_nil_r.
  rewrite dict_set_entry_present by assumption. reflexivity.
Qed.

Lemma setitem_absent (k : K) (v : V) (items : list (K * V)) (ms : Z)
    (f : option string) (sh : Shelf) (l : list K) :
  1 <= ms ->
  ~ In k (dict_keys items) ->
  ~ In (hash_key hash k) (hkeys (skipn (excess items ms) items)) ->
  PersistentCache___setitem__ K_eqb hash k v (opened_world items ms f sh [] l)
  = (Ok tt,
     opened_world (insert_new ms items (k, v)) ms f sh []
       (l ++ evicted_by ms items)).
Proof.
  intros Hms Hk Hhk. unfold PersistentCache___setitem__, bind.
  rewrite initialize_noop by apply opened_world_initialized.
  unfold wrapped___setitem__, initialize_if_not_initialized.
  rewrite opened_setitem_new by assumption.
  unfold opened_world, Shelf___setitem__, Shelf_sync, modify, ret, bind. cbn.
  rewrite !app_nil_r.
  rewrite dict_set_entry_absent; [reflexivity|exact Hhk].
Qed.

Lemma delitem_present (k : K) (items : list (K * V)) (ms : Z)
    (f : option string) (sh : Shelf) (l : list K) :
  In k (dict_keys items) ->
  NoDup (hkeys items) ->
  PersistentCache___getattr_____delitem__ K_eqb hash k
    (opened_world items ms f sh [] l)
  = (Ok tt, opened_world (dict_del K_eqb items k) ms f sh [] (l ++ [k])).
Proof.
  intros Hin ND. unfold PersistentCache___getattr_____delitem__, bind.
  rewrite initialize_noop by apply opened_world_initialized.
  unfold wrapped___delitem__, initialize_if_not_initialized, opened_world.
  rewrite opened_delitem.
  - cbn. rewrite !app_nil_r, dict_del_entry by assumption. reflexivity.
  - cbn. apply (dict_mem_In _ K_eqb_spec). exact Hin.
  - apply (dict_mem_In _ string_eqb_spec).
    rewrite app_nil_r, dict_keys_entry. apply in_map. exact Hin.
Qed.

Lemma delitem_absent (k : K) (items : list (K * V)) (ms : Z)
    (f : option string) (sh : Shelf) (l : list K) :
  ~ In k (dict_keys items) ->
  PersistentCache___getattr_____delitem__ K_eqb hash k
    (opened_world items ms f sh [] l)
  = (Raise (KeyError (CacheKey k)), opened_world items ms f sh [] l).
Proof.
  intros Hin. unfold PersistentCache___getattr_____delitem__, bind.
  rewrite initialize_noop by apply opened_world_initialized.
  unfold wrapped___delitem__, wrapped___delitem___with, DelMixin___delitem__,
    bind.
  cbn [wrapped_hooked opened_world]. rewrite Cache___delitem___wrapped.
  unfold opened_world; cbn [wrapped data].
  replace (dict_mem K_eqb items k) with false
    by (symmetry; apply (dict_mem_false _ K_eqb_spec); exact Hin).
  reflexivity.
Qed.

Lemma NoDup_snoc {A} (l : list A) (x : A) :
  NoDup l -> ~ In x l -> NoDup (l ++ [x]).
Proof.
  intros ND Hx. apply NoDup_app; [exact ND | repeat constructor; tauto |].
  intros a Ha [<-|[]]. exact (Hx Ha).
Qed.

Lemma hkeys_skipn (n : nat) (items : list (K * V)) :
  hkeys (skipn n items) = skipn n (hkeys items).
Proof. rewrite dict_keys_skipn, skipn_map. reflexivity. Qed.

Lemma NoDup_skipn {A} (n : nat) (l : list A) : NoDup l -> NoDup (skipn n l).
Proof.
  intro H. rewrite <- (firstn_skipn n l) in H.
  exact (NoDup_app_remove_l _ _ H).
Qed.

Lemma dict_in_dec (items : list (K * V)) (k : K) :
  In k (dict_keys items) \/ ~ In k (dict_keys items).
Proof.
  destruct (dict_mem K_eqb items k) eqn:E.
  - left. apply (dict_mem_In _ K_eqb_spec). exact E.
  - right. apply (dict_mem_false _ K_eqb_spec). exact E.
Qed.

Lemma dict_del_hkeys_NoDup (items : list (K * V)) (k : K) :
  NoDup (hkeys items) -> NoDup (hkeys (dict_del K_eqb items k)).
Proof.
  induction items as [|[k' v'] items IH]; cbn; [auto|].
  intro ND. inversion ND as [|? ? Hn ND']; subst.
  destruct (K_eqb k k'); [assumption|].
  cbn. constructor; [|auto].
  intro H. apply Hn. apply in_map_iff in H. destruct H as (x & Hx & Hin).
  apply in_map_iff. exists x. split; [exact Hx|].
  exact (dict_del_keys_incl _ _ _ _ Hin).
Qed.

Lemma coherent_opened_world (U : list K) (items : list (K * V)) (ms : Z)
    (f : option string) (sh : Shelf) (l : list K) :
  NoDup (hkeys items) -> incl (dict_keys items) U ->
  coherent hash U (opened_world items ms f sh [] l).
Proof. intros. exists items, ms, f, sh, l. auto. Qed.

(** Every cache operation keeps a coherent world coherent and runs within
    its iteration bounds. *)
Lemma step_cache_coherent (U : list K) (o : CacheOp K V) (w : World) :
  collision_free hash U ->
  incl (op_keys o) U ->
  coherent hash U w ->
  coherent hash U (snd (step_cache K_eqb hash o w)) /\
  fst (step_cache K_eqb hash o w) <> OutOfFuel.
Proof.
  intros HU Ho (items & ms & f & sh & l & -> & ND & Hsub).
  destruct o as [k v|k|k|k| |]; cbn [step_cache]; unfold returning.
  - assert (Hk : In k U) by (apply Ho; now left).
    destruct (Z_lt_le_dec ms 1) as [Hms|Hms].
    { rewrite setitem_too_large by exact Hms. cbn.
      split; [now apply coherent_opened_world | discriminate]. }
    destruct (dict_in_dec items k) as [Hin|Hin].
    + rewrite setitem_present by assumption. cbn.
      split; [|discriminate]. apply coherent_opened_world.
      * rewrite (dict_set_keys_present _ K_eqb_spec) by exact Hin. exact ND.
      * rewrite (dict_set_keys_present _ K_eqb_spec) by exact Hin. exact Hsub.
    + assert (Hhk : ~ In (hash_key hash k) (hkeys items))
        by (eapply hkeys_absent; eauto).
      rewrite setitem_absent;
        [|assumption|assumption|
         rewrite hkeys_skipn; intro H; apply Hhk; exact (In_skipn _ _ _ H)].
      cbn.
      split; [|discriminate]. apply coherent_opened_world.
      * unfold insert_new. rewrite dict_keys_app, map_app. cbn.
        apply NoDup_snoc.
        -- rewrite hkeys_skipn. now apply NoDup_skipn.
        -- rewrite hkeys_skipn. intro H. apply Hhk.
           exact (In_skipn _ _ _ H).
      * unfold insert_new. rewrite dict_keys_app. cbn.
        intros x Hx. apply in_app_or in Hx. destruct Hx as [Hx|[<-|[]]].
        -- apply Hsub. rewrite dict_keys_skipn in Hx.
           exact (In_skipn _ _ _ Hx).
        -- exact Hk.
  - pose proof (@reads_once_initialized K V K_eqb hash k _
                  (opened_world_initialized items ms f sh [] l)) as [Hg _].
    rewrite Hg. cbn. split; [now apply coherent_opened_world|].
    unfold Cache___getitem__, Cache___missing__, raise.
    destruct (dict_get K_eqb _ k); cbn; discriminate.
  - pose proof (@reads_once_initialized K V K_eqb hash k _
                  (opened_world_initialized items ms f sh [] l)) as [_ Hc].
    rewrite Hc. cbn. split; [now apply coherent_opened_world|discriminate].
  - destruct (dict_in_dec items k) as [Hin|Hin].
    + rewrite delitem_present by assumption. cbn.
      split; [|discriminate]. apply coherent_opened_world.
      * now apply dict_del_hkeys_NoDup.
      * intros x Hx. apply Hsub. exact (dict_del_keys_incl _ _ _ _ Hx).
    + rewrite delitem_absent by assumption. cbn.
      split; [now apply coherent_opened_world | discriminate].
  - unfold PersistentCache___getattr___currsize, bind.
    rewrite initialize_noop by apply opened_world_initialized. cbn.
    split; [now apply coherent_opened_world | discriminate].
  - unfold PersistentCache___getattr___maxsize, bind.
    rewrite initialize_noop by apply opened_world_initialized. cbn.
    split; [now apply coherent_opened_world | discriminate].
Qed.
End Mirror.

(** ** The load pass *)
Section Load.
Variables (K V : Type).
Variable K_eqb : K -> K -> bool.
Variable hash : K -> Z.
Hypothesis K_eqb_spec : forall a b, K_eqb a b = true <-> a = b.

#[local] Abbreviation World := (World K V).
#[local] Abbreviation entry := (@entry K V hash).
#[local] Abbreviation opened_world := (@opened_world K V hash).
#[local] Abbreviation hkeys items :=
  (map (hash_key hash) (@dict_keys K V items)).

Lemma skipn_app_le {A} (n : nat) (l1 l2 : list A) :
  (n <= List.length l1)%nat -> skipn n (l1 ++ l2) = skipn n l1 ++ l2.
Proof.
  intro H. rewrite skipn_app.
  replace (n - List.length l1)%nat with O by lia. reflexivity.
Qed.

Lemma insert_new_suffix (ms : Z) (items : list (K * V)) (r : K * V) :
  exists n, (n <= List.length items)%nat /\
            insert_new ms items r = skipn n (items ++ [r]).
Proof.
  unfold insert_new.
  destruct (Nat.le_gt_cases (excess items ms) (List.length items)) as [H|H].
  - exists (excess items ms). split; [exact H|].
    rewrite skipn_app_le by exact H. reflexivity.
  - exists (List.length items). split; [lia|].
    rewrite skipn_app_le by lia.
    rewrite skipn_all2 by lia. rewrite skipn_all. reflexivity.
Qed.

(** After a replay the cache is a suffix of what it held followed by the
    replayed records. *)
Lemma replay_data_suffix (ms : Z) (rs items : list (K * V)) :
  exists n, (n <= List.length items + List.length rs)%nat /\
            replay_data ms items rs = skipn n (items ++ rs).
Proof.
  revert items. induction rs as [|r rs IH]; intro items; cbn.
  - exists O. rewrite app_nil_r. split; [lia|reflexivity].
  - destruct (insert_new_suffix ms items r) as (n & Hn & ->).
    destruct (IH (skipn n (items ++ [r]))) as (n' & Hn' & ->).
    rewrite <- skipn_app_le by (rewrite length_app; cbn; lia).
    rewrite <- app_assoc. cbn. rewrite skipn_skipn.
    exists (n' + n)%nat. split; [|reflexivity].
    rewrite length_skipn, length_app in Hn'. cbn in Hn'. lia.
Qed.

(** Replaying into a cache within its capacity keeps the last [maxsize]
    records and evicts the others, oldest first. *)
Lemma replay_exact (ms : Z) (rs : list (K * V)) :
  1 <= ms ->
  forall (items : list (K * V)) (l : list K),
  Z.of_nat (List.length items) <= ms ->
  replay_data ms items rs
  = skipn (List.length (items ++ rs) - Z.to_nat ms) (items ++ rs) /\
  replay_log ms items l rs
  = l ++ dict_keys (firstn (List.length (items ++ rs) - Z.to_nat ms)
                      (items ++ rs)).
Proof.
  intro Hms. induction rs as [|a rs IH]; intros items l Hlen;
    cbn [replay_data replay_log].
  - rewrite app_nil_r.
    replace (List.length items - Z.to_nat ms)%nat with O by lia.
    cbn. rewrite app_nil_r. auto.
  - unfold insert_new, evicted_by.
    destruct (Z_le_gt_dec (Z.of_nat (List.length items) + 1 - ms) 0) as [H|H].
    + replace (excess items ms) with O by (unfold excess; lia).
      cbn [skipn firstn dict_keys map]. rewrite app_nil_r.
      destruct (IH (items ++ [a]) l) as [IH1 IH2].
      { rewrite length_app. cbn [List.length]. lia. }
      rewrite IH1, IH2, <- app_assoc. cbn. auto.
    + replace (excess items ms) with 1%nat by (unfold excess; lia).
      destruct items as [|x t]; [cbn [List.length] in H; lia|].
      cbn [skipn firstn dict_keys map].
      destruct (IH (t ++ [a]) (l ++ [fst x])) as [IH1 IH2].
      { rewrite length_app. cbn [List.length] in *. lia. }
      rewrite IH1, IH2, <- !app_assoc. cbn [app].
      replace (List.length (x :: t ++ a :: rs) - Z.to_nat ms)%nat
        with (S (List.length (t ++ a :: rs) - Z.to_nat ms)).
      * cbn. auto.
      * cbn [List.length] in *. rewrite length_app in *. cbn [List.length] in *. lia.
Qed.

Lemma store_ok_records (d : Store K V) :
  store_ok hash d -> d = map entry (map snd d).
Proof.
  intros [_ WF]. induction WF as [|[hk r] d Hhk WF IH]; cbn; [reflexivity|].
  cbn in Hhk. subst hk. f_equal. exact IH.
Qed.

Lemma replay_coherent (U : list K) (ms : Z) (f : option string) (sh : Shelf)
    (l : list K) (d : Store K V) :
  store_ok hash d ->
  incl (dict_keys (map snd d)) U ->
  coherent hash U (opened_world (replay_data ms [] (map snd d)) ms f sh [] l).
Proof.
  intros Hok Hsub.
  destruct (replay_data_suffix ms (map snd d) []) as (n & _ & ->). cbn.
  assert (ND : NoDup (hkeys (map snd d))).
  { rewrite <- dict_keys_entry, <- store_ok_records by exact Hok.
    exact (proj1 Hok). }
  exists (skipn n (map snd d)), ms, f, sh, l. split; [reflexivity|]. split.
  - rewrite hkeys_skipn. apply NoDup_skipn. exact ND.
  - intros x Hx. apply Hsub. rewrite dict_keys_skipn in Hx.
    exact (In_skipn _ _ _ Hx).
Qed.

(** The first [initialize_if_not_initialized] of an object built over a
    well-formed store. *)
Lemma initialize_fresh (name : string) (ms : Z) (d : Store K V) :
  truthy (Some name) = true ->
  1 <= ms \/ d = [] ->
  store_ok hash d ->
  initialize_if_not_initialized K_eqb hash
    (PersistentCache___init__ (Some name) ms d)
  = (Ok tt,
     opened_world (replay_data ms [] (map snd d)) ms (Some name)
       (DbfilenameShelf name) [] (replay_log ms [] [] (map snd d))).
Proof.
  intros Hf Hms Hok.
  destruct name as [|a s']; [discriminate|].
  unfold initialize_if_not_initialized, recursion_limit.
  rewrite initialize_at_S.
  cbn [PersistentCache___init__ filename persistent_dict is_None truthy].
  cbn [andb]. cbv zeta.
  rewrite bind_modify. unfold Shelf_keys. rewrite bind_gets.
  cbn [with_persistent_dict wrapped wrapped_hooked filename disk hook_log].
  destruct Hms as [Hms| ->].
  - etransitivity;
      [|apply (@opened_replay K V K_eqb hash K_eqb_spec 7 ms
                 (Some (String a s')) (DbfilenameShelf (String a s')) d
                 Hms [] [] (proj1 Hok) (proj2 Hok))].
    reflexivity.
  - reflexivity.
Qed.
End Load.

(** ** The store invariant along a run *)
Section Invariant.
Variables (K V : Type).
Variable K_eqb : K -> K -> bool.
Variable hash : K -> Z.
Hypothesis K_eqb_spec : forall a b, K_eqb a b = true <-> a = b.

#[local] Abbreviation World := (World K V).
#[local] Abbreviation entry := (@entry K V hash).
#[local] Abbreviation opened_world := (@opened_world K V hash).

Lemma bind_initialize_after {A} (body : unit -> M K World A) (w w1 : World) :
  initialize_if_not_initialized K_eqb hash w = (Ok tt, w1) ->
  bind (initialize_if_not_initialized K_eqb hash) body w
  = bind (initialize_if_not_initialized K_eqb hash) body w1.
Proof.
  intro H.
  assert (Hi : initialized w1 = true).
  { pose proof (initialize_initialized K_eqb hash w) as Hi.
    rewrite H in Hi. exact Hi. }
  unfold bind. rewrite H, (initialize_noop K_eqb hash _ Hi). reflexivity.
Qed.

Lemma step_cache_after_initialize (o : CacheOp K V) (w w1 : World) :
  initialize_if_not_initialized K_eqb hash w = (Ok tt, w1) ->
  step_cache K_eqb hash o w = step_cache K_eqb hash o w1.
Proof.
  intro H.
  destruct o; cbn [step_cache]; unfold returning,
    PersistentCache___setitem__, PersistentCache___getitem__,
    PersistentCache___contains__, PersistentCache___getattr_____delitem__,
    PersistentCache___getattr___currsize, PersistentCache___getattr___maxsize;
    rewrite (@bind_initialize_after _ _ w w1 H); reflexivity.
Qed.

Lemma coherent_mirror (U : list K) (w : World) :
  coherent hash U w ->
  mirror hash w /\ store_keys_match hash w /\ persistent_dict w <> None.
Proof.
  intros (items & ms & f & sh & l & -> & ND & Hsub).
  unfold mirror, store_keys_match, opened_world.
  cbn [disk wrapped data persistent_dict]. rewrite app_nil_r.
  split; [reflexivity|]. split; [|discriminate].
  intro hk. rewrite dict_keys_entry, in_map_iff.
  split; intros (k & H1 & H2); exists k; auto.
Qed.

Lemma run_coherent (U : list K) (ops : list (CacheOp K V)) (w : World) :
  collision_free hash U ->
  Forall (fun o => incl (op_keys o) U) ops ->
  coherent hash U w ->
  coherent hash U (snd (run K_eqb hash (map OnCache ops) w)) /\
  Forall (fun r => r <> OutOfFuel) (fst (run K_eqb hash (map OnCache ops) w)).
Proof.
  intros HU. revert w.
  induction ops as [|o ops IH]; intros w Hops Hw; cbn.
  - split; [exact Hw | constructor].
  - inversion Hops as [|? ? Ho Hops']; subst.
    destruct (@step_cache_coherent K V K_eqb hash K_eqb_spec U o w HU Ho Hw)
      as [Hc Hr].
    destruct (step_cache K_eqb hash o w) as [r w1]. cbn in Hc, Hr.
    destruct (IH w1 Hops' Hc) as [Hc' Hr'].
    destruct (run K_eqb hash (map OnCache ops) w1) as [rs w2].
    cbn in *. split; [exact Hc' | constructor; assumption].
Qed.

(** C1 (amended). Let a persistent cache be built over a store that holds
    only records filed under the hash of their own key, with capacity at
    least 1 (or over an empty store), and let [U] be a set of keys, free
    of hash collisions, that contains the stored keys and the keys of the
    operations.  Then after every sequence of cache operations, as soon as
    the shelf is open, the store keys are exactly the hashed keys of the
    in-memory cache (the store is even the record-for-record mirror of the
    cache), and every operation ran to completion. *)
Theorem C1_store_keys_match_without_collisions
    (U : list K) (name : string) (ms : Z) (d : Store K V)
    (ops : list (CacheOp K V)) :
  truthy (Some name) = true ->
  1 <= ms \/ d = [] ->
  store_ok hash d ->
  incl (dict_keys (map snd d)) U ->
  Forall (fun o => incl (op_keys o) U) ops ->
  collision_free hash U ->
  let r := run K_eqb hash (map OnCache ops)
             (PersistentCache___init__ (Some name) ms d) in
  (persistent_dict (snd r) <> None ->
   store_keys_match hash (snd r) /\ mirror hash (snd r)) /\
  Forall (fun x => x <> OutOfFuel) (fst r).
Proof.
  intros Hf Hms Hok Hd Hops HU. cbv zeta.
  destruct ops as [|o ops].
  - cbn. split; [intro H; now contradiction H | constructor].
  - inversion Hops as [|? ? Ho Hops']; subst.
    pose proof (@initialize_fresh K V K_eqb hash K_eqb_spec name ms d
                  Hf Hms Hok) as Hinit.
    pose proof (@replay_coherent K V hash U ms (Some name)
                  (DbfilenameShelf name)
                  (replay_log ms [] [] (map snd d)) d Hok Hd) as Hc.
    cbn [map run step].
    rewrite (@step_cache_after_initialize o _ _ Hinit).
    destruct (@step_cache_coherent K V K_eqb hash K_eqb_spec U o _ HU Ho Hc)
      as [Hc1 Hr1].
    destruct (step_cache K_eqb hash o _) as [r1 w1]. cbn in Hc1, Hr1.
    destruct (@run_coherent U ops w1 HU Hops' Hc1) as [Hc2 Hr2].
    destruct (run K_eqb hash (map OnCache ops) w1) as [rs w2].
    cbn in *. destruct (@coherent_mirror U w2 Hc2) as (Hm & Hs & _).
    split; [intros _; split; assumption | constructor; assumption].
Qed.
End Invariant.

(** ** Loading and reloading *)
Section LoadClaims.
Variables (K V : Type).
Variable K_eqb : K -> K -> bool.
Variable hash : K -> Z.
Hypothesis K_eqb_spec : forall a b, K_eqb a b = true <-> a = b.

#[local] Abbreviation World := (World K V).
#[local] Abbreviation entry := (@entry K V hash).
#[local] Abbreviation opened_world := (@opened_world K V hash).

(** C6 (amended). Over a store in which every record is filed under the
    hash of its own key, and with capacity at least 1, the load pass of
    the first operation returns normally.  Every record is inserted in
    store order; the records beyond capacity are evicted oldest first,
    each eviction going through the deletion hook (the hook log is the
    evicted keys in order) and removing that key's store record.  The
    store is left as the mirror of the in-memory cache, and the operation
    proper then runs on that world. *)
Theorem C6_load_over_well_formed_store
    (name : string) (ms : Z) (d : Store K V) :
  truthy (Some name) = true ->
  1 <= ms ->
  store_ok hash d ->
  let w0 := PersistentCache___init__ (Some name) ms d in
  let r := initialize_if_not_initialized K_eqb hash w0 in
  let n := (List.length d - Z.to_nat ms)%nat in
  fst r = Ok tt /\
  data (wrapped (snd r)) = skipn n (map snd d) /\
  hook_log (snd r) = dict_keys (firstn n (map snd d)) /\
  disk (snd r) = skipn n d /\
  mirror hash (snd r) /\
  store_keys_match hash (snd r) /\
  (forall o, step_cache K_eqb hash o w0 = step_cache K_eqb hash o (snd r)).
Proof.
  intros Hf Hms Hok. cbv zeta.
  pose proof (@initialize_fresh K V K_eqb hash K_eqb_spec name ms d
                Hf (or_introl Hms) Hok) as Hinit.
  destruct (@replay_exact K V ms (map snd d) Hms [] []) as [Hd Hl].
  { cbn. lia. }
  cbn [app] in Hd, Hl. rewrite length_map in Hd, Hl.
  assert (Hc : coherent hash (dict_keys (map snd d))
                 (snd (initialize_if_not_initialized K_eqb hash
                         (PersistentCache___init__ (Some name) ms d)))).
  { rewrite Hinit. apply replay_coherent; [exact Hok | apply incl_refl]. }
  destruct (@coherent_mirror K V hash _ _ Hc) as (Hm & Hs & _).
  split; [rewrite Hinit; reflexivity|].
  split; [rewrite Hinit; exact Hd|].
  split; [rewrite Hinit; exact Hl|].
  split.
  { rewrite Hinit. cbn [snd].
    unfold opened_world. cbn [disk]. rewrite app_nil_r, Hd.
    rewrite <- skipn_map, <- store_ok_records by exact Hok. reflexivity. }
  split; [exact Hm|]. split; [exact Hs|].
  intro o. apply (@step_cache_after_initialize K V K_eqb hash o).
  rewrite Hinit. reflexivity.
Qed.

Lemma excess_nil_1 : excess (@nil (K * V)) 1 = O.
Proof. reflexivity. Qed.

Lemma excess_one_1 (x : K * V) : excess [x] 1 = 1%nat.
Proof. reflexivity. Qed.

(** The two sets of C2 on a fresh store, as a world. *)
Lemma two_sets_capacity_one (name : string) (a b : K) (v1 v2 : V) :
  truthy (Some name) = true ->
  run K_eqb hash [OnCache (OpSet a v1); OnCache (OpSet b v2)]
    (PersistentCache___init__ (Some name) 1 [])
  = ([Ok VNone; Ok VNone],
     opened_world [(b, v2)] 1 (Some name) (DbfilenameShelf name) []
       (if K_eqb b a then [] else [a])).
Proof.
  intro Hf.
  pose proof (@initialize_fresh K V K_eqb hash K_eqb_spec name 1 []
                Hf (or_intror eq_refl) (conj (NoDup_nil _) (Forall_nil _)))
    as Hinit.
  cbn [replay_data replay_log map] in Hinit.
  cbn [run step].
  rewrite (@step_cache_after_initialize K V K_eqb hash _ _ _ Hinit).
  cbn [step_cache]. unfold returning.
  rewrite (@setitem_absent K V K_eqb hash K_eqb_spec);
    [|lia|intros []|rewrite excess_nil_1; intros []].
  unfold insert_new, evicted_by. rewrite excess_nil_1.
  cbn [skipn firstn app dict_keys map fmap_result].
  destruct (K_eqb b a) eqn:E.
  - apply K_eqb_spec in E. subst b.
    rewrite (@setitem_present K V K_eqb hash K_eqb_spec);
      [|lia|now left|repeat constructor; intros []].
    cbn. rewrite (A_eqb_refl _ K_eqb_spec). reflexivity.
  - assert (Hne : ~ In b (dict_keys [(a, v1)])).
    { intros [H|[]]. cbn in H. subst.
      rewrite (A_eqb_refl _ K_eqb_spec) in E. discriminate. }
    rewrite (@setitem_absent K V K_eqb hash K_eqb_spec);
      [|lia|exact Hne|rewrite excess_one_1; intros []].
    unfold insert_new, evicted_by. rewrite excess_one_1. reflexivity.
Qed.

(** C2. On a fresh store, with capacity 1, [cache[a] = v1] followed by
    [cache[b] = v2] both return normally and leave exactly one record in
    the store, [b]'s; when [a] and [b] differ, the deletion hook has run
    once, for [a].  A new [PersistentCache] of capacity 1 opened on the
    resulting store loads without error and holds the single item
    [b -> v2], the store being left as it was. *)
Theorem C2_eviction_removes_the_store_record
    (name : string) (a b : K) (v1 v2 : V) :
  truthy (Some name) = true ->
  let r := run K_eqb hash [OnCache (OpSet a v1); OnCache (OpSet b v2)]
             (PersistentCache___init__ (Some name) 1 []) in
  let r' := initialize_if_not_initialized K_eqb hash
              (PersistentCache___init__ (Some name) 1 (disk (snd r))) in
  fst r = [Ok VNone; Ok VNone] /\
  disk (snd r) = [(hash_key hash b, (b, v2))] /\
  data (wrapped (snd r)) = [(b, v2)] /\
  (a <> b -> hook_log (snd r) = [a]) /\
  fst r' = Ok tt /\
  data (wrapped (snd r')) = [(b, v2)] /\
  disk (snd r') = [(hash_key hash b, (b, v2))].
Proof.
  intro Hf. cbv zeta. rewrite (@two_sets_capacity_one name a b v1 v2 Hf).
  cbn [fst snd opened_world disk wrapped data hook_log map app].
  assert (Hok : store_ok hash [entry (b, v2)]).
  { split; [repeat constructor; intros [] | repeat constructor]. }
  rewrite (@initialize_fresh K V K_eqb hash K_eqb_spec name 1
             [entry (b, v2)] Hf (or_introl (Z.le_refl 1)) Hok).
  cbn [fst snd opened_world disk wrapped data hook_log map app replay_data].
  unfold insert_new. rewrite excess_nil_1.
  repeat split; try reflexivity.
  intro Hne. rewrite (A_eqb_neq _ K_eqb_spec); [reflexivity|].
  intro; subst; tauto.
Qed.
End LoadClaims.

(** ** Set, then get: the round trip *)
Section RoundTripClaim.
Variables (K V : Type).
Variable K_eqb : K -> K -> bool.
Variable hash : K -> Z.
Hypothesis K_eqb_spec : forall a b, K_eqb a b = true <-> a = b.

#[local] Abbreviation World := (World K V).
#[local] Abbreviation opened_world := (@opened_world K V hash).
#[local] Abbreviation bare_del := (bare___delitem__ (V := V) K_eqb).
#[local] Abbreviation id_cache := (fun c : Cache K V => c).
#[local] Abbreviation put_cache := (fun (c : Cache K V) (_ : Cache K V) => c).

Lemma bare_popitem_Ok (k0 : K) (v0 : V) (t : list (K * V)) (ms : Z) :
  Cache_popitem K_eqb id_cache bare_del {| data := (k0, v0) :: t; maxsize := ms |}
  = (Ok (k0, v0), {| data := t; maxsize := ms |}).
Proof.
  unfold Cache_popitem, bind, Cache___getitem__, bare___delitem__,
    Cache___delitem__, dict_mem.
  cbn. rewrite (A_eqb_refl _ K_eqb_spec). cbn.
  rewrite (A_eqb_refl _ K_eqb_spec). reflexivity.
Qed.

Lemma bare_evict_while_Ok (fuel : nat) (items : list (K * V)) (ms : Z) :
  1 <= ms -> (List.length items <= fuel)%nat ->
  fst (Cache_evict_while K_eqb id_cache bare_del fuel 1
         {| data := items; maxsize := ms |}) = Ok tt.
Proof.
  intro Hms. revert items. induction fuel as [|fuel IH]; intros items Hlen;
    cbn [Cache_evict_while]; unfold currsize; cbn [data maxsize].
  - destruct items; [|cbn in Hlen; lia]. cbn [List.length].
    replace (Z.of_nat 0 + 1 >? ms) with false
      by (symmetry; apply Zgtb_false; lia).
    reflexivity.
  - destruct (Z.of_nat (List.length items) + 1 >? ms) eqn:E; [|reflexivity].
    destruct items as [|[k0 v0] t].
    { cbn in E. apply Z.gtb_gt in E. lia. }
    unfold bind. rewrite bare_popitem_Ok. apply IH. cbn in Hlen. lia.
Qed.

Lemma bare___setitem___Ok (key : K) (value : V) (c : Cache K V) :
  1 <= maxsize c ->
  fst (Cache___setitem__ K_eqb id_cache put_cache bare_del key value c) = Ok tt.
Proof.
  intro Hms. unfold Cache___setitem__.
  replace (1 >? maxsize c) with false by (symmetry; apply Zgtb_false; lia).
  unfold bind.
  destruct (dict_mem K_eqb (data c) key); [reflexivity|].
  pose proof (@bare_evict_while_Ok (List.length (data c)) (data c) (maxsize c)
                Hms (le_n _)) as H.
  destruct c as [items ms]. cbn [data maxsize] in *.
  destruct (Cache_evict_while _ _ _ _ _ _) as [[[]|e|] c1]; cbn in *;
    try discriminate.
  reflexivity.
Qed.

(** C5 (amended). Whenever [cache[k] = v] returns normally on a [PersistentCache],
    with or without persistence and whether or not this is its first
    operation, an immediate [cache[k]] returns [v] and changes nothing.
    And the set does return normally when the wrapped cache accepts the
    item (capacity at least 1): with persistence off, and with persistence
    on in any world where the store mirrors the cache and the key collides
    with no cached key. *)
Theorem C5_set_then_get (key : K) (value : V) :
  (forall w w' : World,
      PersistentCache___setitem__ K_eqb hash key value w = (Ok tt, w') ->
      PersistentCache___getitem__ K_eqb hash key w' = (Ok value, w')) /\
  (forall w : World,
      disabled w -> 1 <= maxsize (wrapped w) ->
      fst (PersistentCache___setitem__ K_eqb hash key value w) = Ok tt) /\
  (forall (U : list K) (w : World),
      collision_free hash U -> In key U -> coherent hash U w ->
      1 <= maxsize (wrapped w) ->
      fst (PersistentCache___setitem__ K_eqb hash key value w) = Ok tt).
Proof.
  split; [intros w w'; apply (@set_then_get K V K_eqb hash K_eqb_spec)|].
  split.
  - intros w Hd Hms.
    pose proof (@disabled_step K V K_eqb hash (OnCache (OpSet key value)) w Hd)
      as H.
    cbn [step step_cache bare_step_op bare_step] in H. unfold returning in H.
    pose proof (bare___setitem___Ok key value (wrapped w) Hms) as Hb.
    destruct (PersistentCache___setitem__ K_eqb hash key value w) as [r w1].
    destruct (Cache___setitem__ _ _ _ _ _ _ (wrapped w)) as [rb c1].
    cbn in *. subst rb. destruct r as [[]|e|]; cbn in H;
      [reflexivity | discriminate H | discriminate H].
  - intros U w HU Hk (items & ms & f & sh & l & -> & ND & Hsub) Hms.
    cbn [wrapped opened_world maxsize] in Hms.
    destruct (@dict_in_dec K V K_eqb K_eqb_spec items key) as [Hin|Hin].
    + rewrite (@setitem_present K V K_eqb hash K_eqb_spec) by assumption.
      reflexivity.
    + rewrite (@setitem_absent K V K_eqb hash K_eqb_spec);
        [reflexivity|assumption|assumption|].
      rewrite hkeys_skipn. intro H.
      apply (@hkeys_absent K V hash U items key HU Hsub Hk Hin).
      exact (In_skipn _ _ _ H).
Qed.
End RoundTripClaim.

(** * The theorems at concrete inputs *)

Lemma small_keys_collision_free : collision_free int_hash small_keys.
Proof.
  intros a b Ha Hb. unfold small_keys in *. cbn in Ha, Hb.
  destruct Ha as [<-|[<-|[<-|[]]]]; destruct Hb as [<-|[<-|[<-|[]]]];
    vm_compute; intro H; try reflexivity; discriminate H.
Qed.

Lemma one_record_ok : store_ok int_hash one_record.
Proof.
  split.
  - repeat constructor. intros [].
  - repeat constructor.
Qed.

Lemma two_records_ok : store_ok int_hash two_records.
Proof.
  split.
  - repeat constructor; cbn; intuition discriminate.
  - repeat constructor.
Qed.

(** C1 as the claim states it fails: after [cache[-1] = 10],
    [cache[-2] = 20] and the deletion of [-1], whose hash is that of [-2],
    the shelf is open, [-2] is in memory and the store is empty. *)
Lemma C1_counterexample_colliding_keys :
  int_hash (-1) = int_hash (-2) /\
  persistent_dict after_collision <> None /\
  In (-2) (dict_keys (data (wrapped after_collision))) /\
  disk after_collision = [] /\
  ~ store_keys_match int_hash after_collision.
Proof.
  split; [reflexivity|]. split; [vm_compute; discriminate|].
  split; [vm_compute; auto|]. split; [reflexivity|].
  intro H. destruct (H "-2"%string) as [_ H2].
  assert (Hin : In "-2"%string (dict_keys (disk after_collision))).
  { apply H2. exists (-2). split; [vm_compute; auto | reflexivity]. }
  exact Hin.
Qed.

Lemma C1_witness :
  truthy (Some "cache.db"%string) = true /\
  store_ok int_hash one_record /\
  (let r := run Z.eqb int_hash (map OnCache sample_ops) (fresh 2 one_record) in
   (persistent_dict (snd r) <> None ->
    store_keys_match int_hash (snd r) /\ mirror int_hash (snd r)) /\
   Forall (fun x => x <> OutOfFuel) (fst r)).
Proof.
  split; [reflexivity|]. split; [exact one_record_ok|].
  apply (@C1_store_keys_match_without_collisions Z Z Z.eqb int_hash Z.eqb_eq
           small_keys "cache.db"%string 2 one_record sample_ops).
  - reflexivity.
  - left. lia.
  - exact one_record_ok.
  - intros x [<-|[]]. cbn. auto.
  - unfold sample_ops.
    repeat (apply Forall_cons;
            [intros x Hx; cbn in Hx; unfold small_keys; cbn; intuition|]).
    apply Forall_nil.
  - exact small_keys_collision_free.
Defined.

Lemma C2_witness :
  truthy (Some "cache.db"%string) = true /\
  disk (snd (run Z.eqb int_hash [OnCache (OpSet 1 10); OnCache (OpSet 2 20)]
               (fresh 1 [])))
  = [("2"%string, (2, 20))].
Proof.
  split; [reflexivity|].
  exact (proj1 (proj2
    (@C2_eviction_removes_the_store_record Z Z Z.eqb int_hash Z.eqb_eq
       "cache.db"%string 1 2 10 20 eq_refl))).
Defined.

Lemma C4_witness :
  wrapped_hooked after_one_set = true /\
  wrapped___delitem__ Z.eqb int_hash 7 after_one_set
  = (Raise (KeyError (CacheKey 7)), after_one_set) /\
  fst (wrapped___delitem__ Z.eqb int_hash 1 after_one_set) = Ok tt /\
  hook_log (snd (wrapped___delitem__ Z.eqb int_hash 1 after_one_set))
  = hook_log after_one_set ++ [1].
Proof.
  split; [reflexivity|]. split.
  - exact (proj2 (proj1
      (@C4_delete_absent_and_present Z Z Z.eqb int_hash 7 after_one_set
         eq_refl) eq_refl)).
  - split; [reflexivity|].
    exact (proj2 (proj2 (proj1 (proj2
      (@C4_delete_absent_and_present Z Z Z.eqb int_hash 1 after_one_set
         eq_refl)) eq_refl)) eq_refl).
Defined.

(** C5 as the claim states it fails: in the world reached by
    [cache[-1] = 10], [cache[-2] = 20], the deletion of [-1] and
    [cache[3] = 30] on a fresh store of capacity 2, the bare cache accepts
    the item [(4, 40)], but [cache[4] = 40] on the persistent cache raises
    the store's [KeyError] while evicting [-2], whose store record is
    gone; the item is not inserted and the [cache[4]] that follows raises
    the cache's [KeyError]. *)
Lemma C5_counterexample_set_raises_after_collision :
  fst (bare_step Z.eqb (OpSet 4 40) (wrapped desynchronised)) = Ok VNone /\
  fst (PersistentCache___setitem__ Z.eqb int_hash 4 40 desynchronised)
  = Raise (KeyError (StoreKey "-2"%string)) /\
  fst (PersistentCache___getitem__ Z.eqb int_hash 4
         (snd (PersistentCache___setitem__ Z.eqb int_hash 4 40
                 desynchronised)))
  = Raise (KeyError (CacheKey 4)) /\
  fst (run Z.eqb int_hash
         (colliding_ops ++
          [OnCache (OpSet 3 30); OnCache (OpSet 4 40); OnCache (OpGet 4)])
         (fresh 2 []))
  = [Ok VNone; Ok VNone; Ok VNone; Ok VNone;
     Raise (KeyError (StoreKey "-2"%string));
     Raise (KeyError (CacheKey 4))].
Proof. repeat split; vm_compute; reflexivity. Qed.

Lemma C5_witness :
  exists w' : World Z Z,
    PersistentCache___setitem__ Z.eqb int_hash 1 10 (fresh 1 two_records)
    = (Ok tt, w') /\
    PersistentCache___getitem__ Z.eqb int_hash 1 w' = (Ok 10, w').
Proof.
  eexists. split.
  - vm_compute. reflexivity.
  - apply (proj1 (@C5_set_then_get Z Z Z.eqb int_hash Z.eqb_eq 1 10)
             (fresh 1 two_records)).
    vm_compute. reflexivity.
Defined.

(** C6 as the claim states it fails: with capacity 1 and a record filed by
    hand under a foreign store key, the load pass of the first operation
    raises the store's [KeyError] when that record is evicted; the second
    record is never inserted and the store does not match the cache.  Met
    in the other order, the orphan is loaded and stays in the store under
    a key that is not the hash of its key. *)
Lemma C6_counterexample_orphan_record :
  fst (initialize_if_not_initialized Z.eqb int_hash (fresh 1 orphan_store))
  = Raise (KeyError (StoreKey "1"%string)) /\
  fst (step_cache Z.eqb int_hash (OpContains 2) (fresh 1 orphan_store))
  = Raise (KeyError (StoreKey "1"%string)) /\
  data (wrapped (snd (initialize_if_not_initialized Z.eqb int_hash
                        (fresh 1 orphan_store)))) = [] /\
  disk (snd (initialize_if_not_initialized Z.eqb int_hash
               (fresh 1 orphan_store))) = orphan_store /\
  ~ store_keys_match int_hash
      (snd (initialize_if_not_initialized Z.eqb int_hash
              (fresh 1 orphan_store))) /\
  ~ store_keys_match int_hash
      (snd (initialize_if_not_initialized Z.eqb int_hash
              (fresh 1 orphan_store_rev))).
Proof.
  assert (E1 : initialize_if_not_initialized Z.eqb int_hash (fresh 1 orphan_store)
               = (Raise (KeyError (StoreKey "1"%string)),
                  {| wrapped := {| data := []; maxsize := 1 |};
                     wrapped_hooked := true;
                     filename := Some "cache.db"%string;
                     persistent_dict := Some (DbfilenameShelf "cache.db");
                     disk := orphan_store;
                     hook_log := [1] |}))
    by (vm_compute; reflexivity).
  assert (E2 : initialize_if_not_initialized Z.eqb int_hash
                 (fresh 1 orphan_store_rev)
               = (Ok tt,
                  {| wrapped := {| data := [(1, 10)]; maxsize := 1 |};
                     wrapped_hooked := true;
                     filename := Some "cache.db"%string;
                     persistent_dict := Some (DbfilenameShelf "cache.db");
                     disk := [("orphan"%string, (1, 10))];
                     hook_log := [2] |}))
    by (vm_compute; reflexivity).
  rewrite E1, E2. cbn [fst snd wrapped data disk].
  split; [reflexivity|]. split; [vm_compute; reflexivity|].
  split; [reflexivity|]. split; [reflexivity|]. split.
  - intro H. destruct (H "2"%string) as [H1 _].
    destruct H1 as (k & Hk & _); [cbn; auto | exact Hk].
  - intro H. destruct (H "orphan"%string) as [H1 _].
    destruct H1 as (k & Hk & Hh); [cbn; auto|].
    cbn in Hk. destruct Hk as [<-|[]]. vm_compute in Hh. discriminate Hh.
Qed.

(** With capacity 0 the cache refuses every item, and the load pass over a
    non-empty store aborts on its first record. *)
Example load_aborts_with_capacity_zero :
  initialize_if_not_initialized Z.eqb int_hash (fresh 0 one_record)
  = (Raise ValueError_value_too_large,
     with_persistent_dict (Some (DbfilenameShelf "cache.db"))
       (fresh 0 one_record)).
Proof. vm_compute. reflexivity. Qed.

Lemma C6_witness :
  truthy (Some "cache.db"%string) = true /\
  1 <= 1 /\
  store_ok int_hash two_records /\
  (let r := initialize_if_not_initialized Z.eqb int_hash (fresh 1 two_records) in
   fst r = Ok tt /\
   data (wrapped (snd r)) = [(2, 20)] /\
   hook_log (snd r) = [1] /\
   disk (snd r) = [("2"%string, (2, 20))]).
Proof.
  split; [reflexivity|]. split; [lia|]. split; [exact two_records_ok|].
  destruct (@C6_load_over_well_formed_store Z Z Z.eqb int_hash Z.eqb_eq
              "cache.db"%string 1 two_records eq_refl (Z.le_refl 1)
              two_records_ok)
    as (H1 & H2 & H3 & H4 & _).
  cbv zeta. repeat split; assumption.
Defined.

(** C8 as the claim states it fails: the first [cache[2]] of an object of
    capacity 1 over a two-record store opens the store, reads it, and
    deletes a record from it. *)
Lemma C8_counterexample_first_get_loads :
  fst (PersistentCache___getitem__ Z.eqb int_hash 2 (fresh 1 two_records))
  = Ok 20 /\
  disk (fresh 1 two_records) = two_records /\
  disk (snd (PersistentCache___getitem__ Z.eqb int_hash 2
               (fresh 1 two_records)))
  = [("2"%string, (2, 20))] /\
  disk (snd (PersistentCache___getitem__ Z.eqb int_hash 2
               (fresh 1 two_records)))
  <> disk (fresh 1 two_records).
Proof.
  repeat split; try (vm_compute; reflexivity).
  vm_compute. discriminate.
Qed.

Lemma C8_witness :
  initialized after_collision = true /\
  PersistentCache___getitem__ Z.eqb int_hash (-2) after_collision
  = (Ok 20, after_collision).
Proof.
  split; [reflexivity|].
  exact (proj1
    (@C8_reads_pure_once_initialized Z Z Z.eqb int_hash (-2) after_collision
       eq_refl)).
Defined.

Lemma C10_witness :
  wrapped_hooked after_collision = true /\
  is_None (persistent_dict after_collision) = false /\
  dict_mem Z.eqb (data (wrapped after_collision)) (-2) = true /\
  dict_mem String.eqb (disk after_collision) (hash_key int_hash (-2)) = false /\
  fst (PersistentCache___getattr_____delitem__ Z.eqb int_hash (-2)
         after_collision)
  = Raise (KeyError (StoreKey "-2"%string)).
Proof.
  repeat (split; [reflexivity|]).
  exact (proj1
    (@C10_delete_store_key_absent Z Z Z.eqb int_hash (-2) after_collision
       eq_refl eq_refl eq_refl eq_refl)).
Defined.

(** * Further properties of the module *)

(** ** Teardown, store keys, and the single load *)
Section Teardown.
Variables (K V : Type).
Variable K_eqb : K -> K -> bool.
Variable hash : K -> Z.

#[local] Abbreviation World := (World K V).

(** X1. [__del__] never raises and leaves the object exactly as [close()]
    does: with the shelf open it closes it and forgets the handle; with
    [persistent_dict] at [None] the [AttributeError] of [None.close] is
    swallowed and nothing changes. *)
Theorem X1_del_is_close (w : World) :
  PersistentCache___del__ w = PersistentCache_close w /\
  fst (PersistentCache___del__ w) = Ok tt /\
  persistent_dict (snd (PersistentCache___del__ w)) = None /\
  disk (snd (PersistentCache___del__ w)) = disk w /\
  wrapped (snd (PersistentCache___del__ w)) = wrapped w.
Proof.
  unfold PersistentCache___del__, del_try_body, PersistentCache_close.
  destruct (persistent_dict w) as [sh|] eqn:E; cbn; rewrite ?E; auto.
Qed.

(** X2. Two keys are filed under the same store key exactly when they have
    the same hash: the decimal rendering loses nothing, and nothing but
    the hash goes into the store key. *)
Theorem X2_hash_key_collides_iff_hash_does (a b : K) :
  hash_key hash a = hash_key hash b <-> hash a = hash b.
Proof.
  unfold hash_key. split.
  - apply str_inj.
  - intros ->. reflexivity.
Qed.

Lemma snd_returning {A} (f : A -> Value V) (m : M K World A) (w : World) :
  snd (returning f m w) = snd (m w).
Proof. unfold returning. destruct (m w). reflexivity. Qed.

(** What [initialize_if_not_initialized] leaves alone, from any world. *)
Lemma initialize_frame (w : World) :
  let w1 := snd (initialize_if_not_initialized K_eqb hash w) in
  filename w1 = filename w /\
  wrapped_hooked w1 = wrapped_hooked w /\
  maxsize (wrapped w1) = maxsize (wrapped w) /\
  initialized w1 = true /\
  (persistent_dict w <> None -> persistent_dict w1 = persistent_dict w).
Proof.
  cbv zeta. destruct (initialized w) eqn:Hi.
  - rewrite initialize_noop by exact Hi. cbn. auto.
  - pose proof (initialize_initialized K_eqb hash w) as Hi1.
    unfold initialized in Hi. apply negb_false_iff in Hi.
    apply andb_true_iff in Hi. destruct Hi as [Hf Hp].
    unfold initialize_if_not_initialized, recursion_limit in *.
    rewrite initialize_at_S in *. rewrite Hf, Hp in *. cbn [andb] in *.
    destruct (filename w) as [name|] eqn:Ef; [|discriminate].
    cbv zeta in *. rewrite bind_modify in *. unfold Shelf_keys in *.
    rewrite bind_gets in *.
    set (c := (Some name, Some (DbfilenameShelf name), wrapped_hooked w,
               maxsize (wrapped w))).
    assert (Hc : negb (truthy (fst (fst (fst c)))
                       && is_None (snd (fst (fst c)))) = true).
    { cbn. rewrite andb_false_r. reflexivity. }
    pose proof (@preserves_Shelf_items_for K V K_eqb hash c Hc 7
                  (DbfilenameShelf name)
                  (dict_keys (disk (with_persistent_dict
                                      (Some (DbfilenameShelf name)) w)))
                  (with_persistent_dict (Some (DbfilenameShelf name)) w))
      as Hs.
    unfold stable, config in Hs. cbn [with_persistent_dict filename
      persistent_dict wrapped_hooked wrapped] in Hs.
    rewrite Ef in Hs. specialize (Hs eq_refl).
    injection Hs as H1 H2 H3 H4.
    repeat split; try assumption.
    destruct (persistent_dict w); [discriminate Hp | intro H; now contradiction H].
Qed.

(** A cache operation on an initialised object keeps filename, handle,
    class and capacity. *)
Lemma step_cache_config (o : CacheOp K V) (w : World) :
  initialized w = true ->
  config (snd (step_cache K_eqb hash o w)) = config w.
Proof.
  intro Hi.
  assert (Hc : negb (truthy (fst (fst (fst (config w))))
                     && is_None (snd (fst (fst (config w))))) = true)
    by exact Hi.
  destruct o as [k v|k|k|k| |]; cbn [step_cache]; rewrite snd_returning.
  - unfold PersistentCache___setitem__, bind.
    rewrite (initialize_noop _ _ _ Hi).
    pose proof (@preserves_wrapped___setitem___with K V K_eqb hash (config w)
                  Hc recursion_limit k v w eq_refl) as H.
    unfold wrapped___setitem__, initialize_if_not_initialized.
    destruct (wrapped___setitem___with _ _ _ _ _ w) as [[[]|e|] w1];
      cbn in *; try exact H.
    destruct (persistent_dict w1); cbn; exact H.
  - unfold PersistentCache___getitem__, bind.
    rewrite (initialize_noop _ _ _ Hi).
    unfold Cache___getitem__, Cache___missing__, raise.
    destruct (dict_get K_eqb (data (wrapped w)) k); reflexivity.
  - unfold PersistentCache___contains__, bind.
    rewrite (initialize_noop _ _ _ Hi). reflexivity.
  - unfold PersistentCache___getattr_____delitem__, bind.
    rewrite (initialize_noop _ _ _ Hi).
    exact (@preserves_wrapped___delitem___with K V K_eqb hash (config w)
             Hc recursion_limit k w eq_refl).
  - unfold PersistentCache___getattr___currsize, bind.
    rewrite (initialize_noop _ _ _ Hi). reflexivity.
  - unfold PersistentCache___getattr___maxsize, bind.
    rewrite (initialize_noop _ _ _ Hi). reflexivity.
Qed.

(** Where a cache operation ends: in the world its body leaves after the
    load, or in the world the load left when it raised. *)
Lemma step_cache_via_initialize (o : CacheOp K V) (w : World) :
  let w1 := snd (initialize_if_not_initialized K_eqb hash w) in
  step_cache K_eqb hash o w = step_cache K_eqb hash o w1 \/
  snd (step_cache K_eqb hash o w) = w1.
Proof.
  cbv zeta.
  destruct (initialize_if_not_initialized K_eqb hash w) as [[[]|e|] w1] eqn:E.
  - left. apply (@step_cache_after_initialize K V K_eqb hash o w w1 E).
  - right. destruct o; cbn [step_cache]; rewrite snd_returning;
      unfold PersistentCache___setitem__, PersistentCache___getitem__,
        PersistentCache___contains__, PersistentCache___getattr_____delitem__,
        PersistentCache___getattr___currsize,
        PersistentCache___getattr___maxsize, bind; rewrite E; reflexivity.
  - right. destruct o; cbn [step_cache]; rewrite snd_returning;
      unfold PersistentCache___setitem__, PersistentCache___getitem__,
        PersistentCache___contains__, PersistentCache___getattr_____delitem__,
        PersistentCache___getattr___currsize,
        PersistentCache___getattr___maxsize, bind; rewrite E; reflexivity.
Qed.

Lemma step_cache_maxsize (o : CacheOp K V) (w : World) :
  maxsize (wrapped (snd (step_cache K_eqb hash o w))) = maxsize (wrapped w).
Proof.
  destruct (initialize_frame w) as (_ & _ & Hm & Hi & _).
  destruct (step_cache_via_initialize o w) as [H|H]; rewrite H;
    [|exact Hm].
  pose proof (@step_cache_config o _ Hi) as Hc.
  unfold config in Hc. injection Hc as _ _ _ Hc. rewrite Hc. exact Hm.
Qed.

Lemma run_maxsize (ops : list (CacheOp K V)) (w : World) :
  maxsize (wrapped (snd (run K_eqb hash (map OnCache ops) w)))
  = maxsize (wrapped w).
Proof.
  revert w. induction ops as [|o ops IH]; intro w; cbn; [reflexivity|].
  pose proof (step_cache_maxsize o w) as H.
  destruct (step_cache K_eqb hash o w) as [r w1]. cbn [snd] in H.
  specialize (IH w1).
  destruct (run K_eqb hash (map OnCache ops) w1) as [rs w2].
  cbn [snd] in *. congruence.
Qed.

(** X3. The load is attempted once per opening: after a call of
    [initialize_if_not_initialized], and after any cache operation,
    whether it returned or raised in the middle of the load, a further
    call of [initialize_if_not_initialized] does nothing.  A load that
    failed half-way is therefore not retried by the next operation. *)
Theorem X3_load_attempted_once (w : World) :
  (let w1 := snd (initialize_if_not_initialized K_eqb hash w) in
   initialize_if_not_initialized K_eqb hash w1 = (Ok tt, w1)) /\
  (forall o : CacheOp K V,
     let w1 := snd (step_cache K_eqb hash o w) in
     initialize_if_not_initialized K_eqb hash w1 = (Ok tt, w1)).
Proof.
  split; cbv zeta.
  - apply initialize_noop. apply initialize_initialized.
  - intro o. apply initialize_noop.
    destruct (initialize_frame w) as (_ & _ & _ & Hi & _).
    destruct (step_cache_via_initialize o w) as [H|H]; rewrite H.
    + rewrite (initialized_config (@step_cache_config o _ Hi)). exact Hi.
    + exact Hi.
Qed.

(** X4. No cache operation (set, get, contains, delete, attribute read),
    from any world and whether it returns or raises, changes the filename,
    the class of the wrapped cache or its capacity; a shelf that is open
    stays open under the same handle; and with a truthy filename the shelf
    is open after the operation. *)
Theorem X4_operations_keep_configuration (o : CacheOp K V) (w : World) :
  let w' := snd (step_cache K_eqb hash o w) in
  filename w' = filename w /\
  wrapped_hooked w' = wrapped_hooked w /\
  maxsize (wrapped w') = maxsize (wrapped w) /\
  (persistent_dict w <> None -> persistent_dict w' = persistent_dict w) /\
  (truthy (filename w) = true -> persistent_dict w' <> None).
Proof.
  cbv zeta.
  destruct (initialize_frame w) as (Hf & Hh & Hm & Hi & Hp).
  set (w1 := snd (initialize_if_not_initialized K_eqb hash w)) in *.
  assert (Hc : config (snd (step_cache K_eqb hash o w)) = config w1).
  { destruct (step_cache_via_initialize o w) as [H|H]; fold w1 in H;
      rewrite H; [apply step_cache_config; exact Hi | reflexivity]. }
  unfold config in Hc. injection Hc as H1 H2 H3 H4.
  rewrite H1, H2, H3, H4.
  repeat split; try assumption.
  intros Ht Hn. unfold initialized in Hi. rewrite Hf, Ht, <- H2 in Hi.
  rewrite H2 in Hi. rewrite Hn in Hi. discriminate Hi.
Qed.
End Teardown.

(** ** Worlds left by collision-free use *)
Section Settled.
Variables (K V : Type).
Variable K_eqb : K -> K -> bool.
Variable hash : K -> Z.
Hypothesis K_eqb_spec : forall a b, K_eqb a b = true <-> a = b.

#[local] Abbreviation World := (World K V).
#[local] Abbreviation entry := (@entry K V hash).
#[local] Abbreviation opened_world := (@opened_world K V hash).
#[local] Abbreviation hkeys items :=
  (map (hash_key hash) (@dict_keys K V items)).

Lemma settled_coherent (U : list K) (w : World) :
  settled hash U w -> coherent hash U w.
Proof.
  intros (items & ms & name & l & -> & _ & ND & Hsub & _).
  exists items, ms, (Some name), (DbfilenameShelf name), l. auto.
Qed.

Lemma dict_set_length {A B} (eqb : A -> A -> bool) (d : list (A * B))
    (a : A) (b : B) :
  dict_mem eqb d a = true ->
  List.length (dict_set eqb d a b) = List.length d.
Proof.
  unfold dict_mem. induction d as [|[a' b'] d IH]; cbn; [discriminate|].
  destruct (eqb a a'); cbn; [reflexivity|].
  intro H. rewrite IH by exact H. reflexivity.
Qed.

Lemma dict_del_length_le {A B} (eqb : A -> A -> bool) (d : list (A * B))
    (a : A) :
  (List.length (dict_del eqb d a) <= List.length d)%nat.
Proof.
  induction d as [|[a' b'] d IH]; cbn; [lia|].
  destruct (eqb a a'); cbn; lia.
Qed.

Lemma insert_new_length (ms : Z) (items : list (K * V)) (r : K * V) :
  1 <= ms ->
  Z.of_nat (List.length items) <= Z.max 0 ms ->
  Z.of_nat (List.length (insert_new ms items r)) <= Z.max 0 ms.
Proof.
  intros Hms Hlen. unfold insert_new, excess.
  rewrite length_app, length_skipn. cbn [List.length]. lia.
Qed.

(** One cache operation from a world whose store mirrors the cache: the
    world it ends in. *)
Lemma step_cache_shape (U : list K) (o : CacheOp K V)
    (items : list (K * V)) (ms : Z) (f : option string) (sh : Shelf)
    (l : list K) :
  collision_free hash U ->
  incl (op_keys o) U ->
  NoDup (hkeys items) ->
  incl (dict_keys items) U ->
  exists items' l',
    snd (step_cache K_eqb hash o (opened_world items ms f sh [] l))
    = opened_world items' ms f sh [] l' /\
    (items' = items \/
     (exists k v, In k (dict_keys items) /\
                  items' = dict_set K_eqb items k v) \/
     (exists k v, 1 <= ms /\ items' = insert_new ms items (k, v)) \/
     (exists k, items' = dict_del K_eqb items k)).
Proof.
  intros HU Ho ND Hsub.
  destruct o as [k v|k|k|k| |]; cbn [step_cache]; rewrite snd_returning.
  - assert (Hk : In k U) by (apply Ho; now left).
    destruct (Z_lt_le_dec ms 1) as [Hms|Hms].
    { rewrite (@setitem_too_large K V K_eqb hash) by exact Hms.
      exists items, l. auto. }
    destruct (@dict_in_dec K V K_eqb K_eqb_spec items k) as [Hin|Hin].
    + rewrite (@setitem_present K V K_eqb hash K_eqb_spec) by assumption.
      exists (dict_set K_eqb items k v), l. split; [reflexivity|].
      right. left. exists k, v. auto.
    + rewrite (@setitem_absent K V K_eqb hash K_eqb_spec);
        [|assumption|assumption|].
      * exists (insert_new ms items (k, v)), (l ++ evicted_by ms items).
        split; [reflexivity|]. right. right. left. exists k, v. auto.
      * rewrite hkeys_skipn. intro H.
        apply (@hkeys_absent K V hash U items k HU Hsub Hk Hin).
        exact (In_skipn _ _ _ H).
  - pose proof (@reads_once_initialized K V K_eqb hash k _
                  (opened_world_initialized hash items ms f sh [] l))
      as [Hg _].
    rewrite Hg. exists items, l. auto.
  - pose proof (@reads_once_initialized K V K_eqb hash k _
                  (opened_world_initialized hash items ms f sh [] l))
      as [_ Hc].
    rewrite Hc. exists items, l. auto.
  - destruct (@dict_in_dec K V K_eqb K_eqb_spec items k) as [Hin|Hin].
    + rewrite (@delitem_present K V K_eqb hash K_eqb_spec) by assumption.
      exists (dict_del K_eqb items k), (l ++ [k]). split; [reflexivity|].
      right. right. right. exists k. reflexivity.
    + rewrite (@delitem_absent K V K_eqb hash K_eqb_spec) by assumption.
      exists items, l. auto.
  - unfold PersistentCache___getattr___currsize, bind.
    rewrite initialize_noop by apply opened_world_initialized.
    exists items, l. auto.
  - unfold PersistentCache___getattr___maxsize, bind.
    rewrite initialize_noop by apply opened_world_initialized.
    exists items, l. auto.
Qed.

Lemma step_cache_settled (U : list K) (o : CacheOp K V) (w : World) :
  collision_free hash U ->
  incl (op_keys o) U ->
  settled hash U w ->
  settled hash U (snd (step_cache K_eqb hash o w)).
Proof.
  intros HU Ho Hw.
  destruct (@step_cache_coherent K V K_eqb hash K_eqb_spec U o w HU Ho
              (settled_coherent Hw)) as [Hc _].
  destruct Hw as (items & ms & name & l & -> & Hf & ND & Hsub & Hlen).
  destruct (@step_cache_shape U o items ms (Some name) (DbfilenameShelf name)
              l HU Ho ND Hsub) as (items' & l' & E & Hcase).
  rewrite E in *.
  destruct Hc as (items2 & ms2 & f2 & sh2 & l2 & E2 & ND2 & Hsub2).
  assert (items2 = items').
  { unfold opened_world in E2. injection E2 as E2 _. congruence. }
  subst items2.
  exists items', ms, name, l'. repeat split; try assumption.
  destruct Hcase as [->|[(k & v & Hin & ->)|[(k & v & Hms & ->)|(k & ->)]]].
  - exact Hlen.
  - rewrite dict_set_length; [exact Hlen|].
    apply (dict_mem_In _ K_eqb_spec). exact Hin.
  - apply insert_new_length; assumption.
  - pose proof (dict_del_length_le K_eqb items k). lia.
Qed.

Lemma run_settled (U : list K) (ops : list (CacheOp K V)) (w : World) :
  collision_free hash U ->
  Forall (fun o => incl (op_keys o) U) ops ->
  settled hash U w ->
  settled hash U (snd (run K_eqb hash (map OnCache ops) w)).
Proof.
  intro HU. revert w.
  induction ops as [|o ops IH]; intros w Hops Hw; cbn; [exact Hw|].
  inversion Hops as [|? ? Ho Hops']; subst.
  pose proof (@step_cache_settled U o w HU Ho Hw) as H1.
  destruct (step_cache K_eqb hash o w) as [r w1]. cbn in H1.
  specialize (IH w1 Hops' H1).
  destruct (run K_eqb hash (map OnCache ops) w1) as [rs w2]. exact IH.
Qed.

Lemma settled_after_load (U : list K) (name : string) (ms : Z)
    (d : Store K V) :
  truthy (Some name) = true ->
  1 <= ms \/ d = [] ->
  store_ok hash d ->
  incl (dict_keys (map snd d)) U ->
  settled hash U
    (snd (initialize_if_not_initialized K_eqb hash
            (PersistentCache___init__ (Some name) ms d))).
Proof.
  intros Hf Hms Hok Hd.
  rewrite (@initialize_fresh K V K_eqb hash K_eqb_spec name ms d Hf Hms Hok).
  cbn [snd].
  destruct (@replay_coherent K V hash U ms (Some name) (DbfilenameShelf name)
              (replay_log ms [] [] (map snd d)) d Hok Hd)
    as (items & ms2 & f2 & sh2 & l2 & E & ND & Hsub).
  assert (Ei : items = replay_data ms [] (map snd d)).
  { unfold opened_world in E. injection E as E _. congruence. }
  subst items.
  exists (replay_data ms [] (map snd d)), ms, name,
    (replay_log ms [] [] (map snd d)).
  repeat split; try assumption.
  destruct Hms as [Hms| ->]; [|cbn; lia].
  destruct (@replay_exact K V ms (map snd d) Hms [] []) as [Hdata _];
    [cbn; lia|].
  rewrite Hdata. cbn [app]. rewrite length_skipn. lia.
Qed.

(** X7. In collision-free use over a well-formed store, every state a
    persistent cache passes through once it has been used holds at most [maxsize] records in the
    store (none when [maxsize] is not positive): the store never outgrows
    the cache's capacity.  The state is moreover settled: shelf open on
    the filename, store the mirror of the cache. *)
Theorem X7_store_bounded_by_capacity
    (U : list K) (name : string) (ms : Z) (d : Store K V)
    (o : CacheOp K V) (ops : list (CacheOp K V)) :
  truthy (Some name) = true ->
  1 <= ms \/ d = [] ->
  store_ok hash d ->
  incl (dict_keys (map snd d)) U ->
  Forall (fun o => incl (op_keys o) U) (o :: ops) ->
  collision_free hash U ->
  let w := snd (run K_eqb hash (map OnCache (o :: ops))
                  (PersistentCache___init__ (Some name) ms d)) in
  Z.of_nat (List.length (disk w)) <= Z.max 0 ms /\
  List.length (disk w) = List.length (data (wrapped w)) /\
  settled hash U w.
Proof.
  intros Hf Hms Hok Hd Hops HU. cbv zeta.
  pose proof (run_maxsize K_eqb hash (o :: ops)
                (PersistentCache___init__ (Some name) ms d)) as Hmax.
  cbn [PersistentCache___init__ wrapped Cache___init__ maxsize] in Hmax.
  inversion Hops as [|? ? Ho Hops']; subst.
  pose proof (@initialize_fresh K V K_eqb hash K_eqb_spec name ms d
                Hf Hms Hok) as Hinit.
  pose proof (@settled_after_load U name ms d Hf Hms Hok Hd) as Hs.
  rewrite Hinit in Hs. cbn [snd] in Hs.
  cbn [map run step] in *.
  rewrite (@step_cache_after_initialize K V K_eqb hash o _ _ Hinit) in *.
  pose proof (@step_cache_settled U o _ HU Ho Hs) as H1.
  destruct (step_cache K_eqb hash o _) as [r1 w1]. cbn [snd] in H1.
  pose proof (@run_settled U ops w1 HU Hops' H1) as H2.
  destruct (run K_eqb hash (map OnCache ops) w1) as [rs w2].
  cbn [snd] in *.
  assert (Hshape := H2).
  destruct Hshape as (items & ms2 & name2 & l2 & -> & _ & _ & _ & Hlen).
  cbn [disk wrapped data opened_world maxsize] in *.
  rewrite app_nil_r, length_map. subst ms2. auto.
Qed.

(** X11. Overwriting a cached key: [cache[k] = v] for a key already in the
    cache returns normally, replaces the value in place in memory and in
    the store record of [k], keeps the order of the keys, evicts nothing
    even at full capacity, and does not call the deletion hook. *)
Theorem X11_overwrite_in_place (U : list K) (k : K) (v : V) (w : World) :
  settled hash U w ->
  In k (dict_keys (data (wrapped w))) ->
  let r := PersistentCache___setitem__ K_eqb hash k v w in
  fst r = Ok tt /\
  data (wrapped (snd r)) = dict_set K_eqb (data (wrapped w)) k v /\
  dict_keys (data (wrapped (snd r))) = dict_keys (data (wrapped w)) /\
  disk (snd r) = map entry (data (wrapped (snd r))) /\
  dict_get String.eqb (disk (snd r)) (hash_key hash k) = Some (k, v) /\
  hook_log (snd r) = hook_log w /\
  settled hash U (snd r).
Proof.
  intros (items & ms & name & l & -> & Hf & ND & Hsub & Hlen) Hin.
  cbn [wrapped data opened_world] in Hin. cbv zeta.
  assert (Hms : 1 <= ms).
  { destruct items; [destruct Hin|]. cbn [List.length] in Hlen. lia. }
  rewrite (@setitem_present K V K_eqb hash K_eqb_spec) by assumption.
  cbn [fst snd wrapped data disk hook_log opened_world].
  rewrite app_nil_r.
  rewrite (dict_set_keys_present _ K_eqb_spec) by exact Hin.
  repeat split; try reflexivity.
  - rewrite <- (@dict_set_entry_present K V K_eqb hash K_eqb_spec)
      by assumption.
    apply (dict_get_set_same _ string_eqb_spec).
  - exists (dict_set K_eqb items k v), ms, name, l.
    rewrite (dict_set_keys_present _ K_eqb_spec) by exact Hin.
    repeat split; try assumption.
    rewrite dict_set_length; [exact Hlen|].
    apply (dict_mem_In _ K_eqb_spec). exact Hin.
Qed.

Lemma excess_below (items : list (K * V)) (ms : Z) :
  Z.of_nat (List.length items) < ms -> excess items ms = O.
Proof. unfold excess. lia. Qed.

Lemma excess_full (items : list (K * V)) (ms : Z) :
  Z.of_nat (List.length items) = ms -> excess items ms = 1%nat.
Proof. unfold excess. lia. Qed.

(** X10. Inserting a new key: on a settled world, [cache[k] = v] for a key
    not in the cache (colliding with no cached key, capacity at least 1)
    returns normally.  Below capacity the item is appended and the hook is
    not called; at capacity exactly the oldest item is evicted, the hook
    being called once with its key.  Either way the store is again the
    mirror of the cache. *)
Theorem X10_insert_evicts_oldest_at_capacity
    (U : list K) (k : K) (v : V) (w : World) :
  settled hash U w ->
  collision_free hash U ->
  In k U ->
  ~ In k (dict_keys (data (wrapped w))) ->
  1 <= maxsize (wrapped w) ->
  let r := PersistentCache___setitem__ K_eqb hash k v w in
  fst r = Ok tt /\
  (Z.of_nat (List.length (data (wrapped w))) < maxsize (wrapped w) ->
   data (wrapped (snd r)) = data (wrapped w) ++ [(k, v)] /\
   hook_log (snd r) = hook_log w) /\
  (Z.of_nat (List.length (data (wrapped w))) = maxsize (wrapped w) ->
   data (wrapped (snd r)) = tl (data (wrapped w)) ++ [(k, v)] /\
   hook_log (snd r) = hook_log w ++ dict_keys (firstn 1 (data (wrapped w)))) /\
  disk (snd r) = map entry (data (wrapped (snd r))) /\
  settled hash U (snd r).
Proof.
  intros Hw HU Hk Hin Hms. cbv zeta.
  pose proof (@step_cache_settled U (OpSet k v) w HU
                (fun x Hx => match Hx with
                             | or_introl E => eq_ind k (fun y => In y U) Hk x E
                             | or_intror F => match F with end
                             end) Hw) as Hs.
  cbn [step_cache] in Hs. rewrite snd_returning in Hs.
  destruct Hw as (items & ms & name & l & -> & Hf & ND & Hsub & Hlen).
  cbn [wrapped data opened_world maxsize hook_log] in *.
  assert (Hhk : ~ In (hash_key hash k) (hkeys (skipn (excess items ms) items))).
  { rewrite hkeys_skipn. intro H.
    apply (@hkeys_absent K V hash U items k HU Hsub Hk Hin).
    exact (In_skipn _ _ _ H). }
  rewrite (@setitem_absent K V K_eqb hash K_eqb_spec) in * by assumption.
  cbn [fst snd wrapped data disk hook_log opened_world].
  rewrite app_nil_r. unfold insert_new, evicted_by.
  repeat split; try reflexivity; try exact Hs.
  - rewrite excess_below by assumption. reflexivity.
  - rewrite excess_below by assumption. cbn. apply app_nil_r.
  - rewrite excess_full by assumption. destruct items; reflexivity.
  - rewrite excess_full by assumption. reflexivity.
Qed.

Lemma dict_del_snoc (items : list (K * V)) (k : K) (v : V) :
  ~ In k (dict_keys items) ->
  dict_del K_eqb (items ++ [(k, v)]) k = items.
Proof.
  induction items as [|[k' v'] items IH]; cbn.
  - intros _. rewrite (A_eqb_refl _ K_eqb_spec). reflexivity.
  - intro H. rewrite (A_eqb_neq _ K_eqb_spec) by (intro; subst; tauto).
    rewrite IH by tauto. reflexivity.
Qed.

(** X12. Insert, then delete: on a settled world below capacity, setting a
    new key (colliding with no cached key) and deleting it again both
    return normally and restore the cache and the store exactly; the only
    trace is one call of the deletion hook, for that key. *)
Theorem X12_set_then_delete_restores
    (U : list K) (k : K) (v : V) (w : World) :
  settled hash U w ->
  collision_free hash U ->
  In k U ->
  ~ In k (dict_keys (data (wrapped w))) ->
  Z.of_nat (List.length (data (wrapped w))) < maxsize (wrapped w) ->
  run K_eqb hash [OnCache (OpSet k v); OnCache (OpDelete k)] w
  = ([Ok VNone; Ok VNone], with_hook_log (hook_log w ++ [k]) w).
Proof.
  intros (items & ms & name & l & -> & Hf & ND & Hsub & Hlen) HU Hk Hin Hlt.
  cbn [wrapped data opened_world maxsize hook_log] in *.
  assert (Hhk0 : ~ In (hash_key hash k) (hkeys items))
    by (apply (@hkeys_absent K V hash U items k HU Hsub Hk Hin)).
  assert (Hhk : ~ In (hash_key hash k) (hkeys (skipn (excess items ms) items))).
  { rewrite hkeys_skipn. intro H. apply Hhk0. exact (In_skipn _ _ _ H). }
  cbn [run step step_cache]. unfold returning.
  rewrite (@setitem_absent K V K_eqb hash K_eqb_spec); [|lia|assumption..].
  unfold insert_new, evicted_by. rewrite excess_below by assumption.
  cbn [skipn firstn dict_keys map fmap_result]. rewrite app_nil_r.
  rewrite (@delitem_present K V K_eqb hash K_eqb_spec).
  - rewrite dict_del_snoc by exact Hin. reflexivity.
  - rewrite dict_keys_app. apply in_or_app. right. now left.
  - rewrite dict_keys_app, map_app. cbn. apply NoDup_snoc; assumption.
Qed.

(** X9. [cache.popitem()], forwarded by [__getattr__]: on a settled world
    with an empty cache it raises the cache's [KeyError] and changes
    nothing; otherwise it returns the oldest item, removes it from memory
    and its record from the store through the deletion hook, called once. *)
Theorem X9_popitem_removes_oldest (U : list K) (w : World) :
  settled hash U w ->
  let r := PersistentCache___getattr___popitem K_eqb hash w in
  match data (wrapped w) with
  | [] => r = (Raise (KeyError CacheIsEmpty), w)
  | (k0, v0) :: t =>
      fst r = Ok (k0, v0) /\
      data (wrapped (snd r)) = t /\
      disk (snd r) = map entry t /\
      hook_log (snd r) = hook_log w ++ [k0] /\
      settled hash U (snd r)
  end.
Proof.
  intros (items & ms & name & l & -> & Hf & ND & Hsub & Hlen). cbv zeta.
  unfold PersistentCache___getattr___popitem, bind.
  rewrite initialize_noop by apply opened_world_initialized.
  unfold wrapped___delitem__, initialize_if_not_initialized.
  cbn [wrapped data opened_world].
  destruct items as [|[k0 v0] t].
  - reflexivity.
  - fold (opened_world ((k0, v0) :: t) ms (Some name)
            (DbfilenameShelf name) [] l).
    rewrite (@opened_popitem K V K_eqb hash K_eqb_spec).
    cbn [fst snd wrapped data disk hook_log opened_world].
    rewrite app_nil_r. repeat split; try reflexivity.
    exists t, ms, name, (l ++ [k0]).
    cbn [dict_keys map fst List.length] in *.
    inversion ND; subst.
    repeat split; try assumption; try reflexivity.
    + intros x Hx. apply Hsub. now right.
    + lia.
Qed.

Lemma dict_get_NoDup_In {A B} (eqb : A -> A -> bool)
    (eqb_spec : forall a b, eqb a b = true <-> a = b)
    (d : list (A * B)) (a : A) (b : B) :
  NoDup (dict_keys d) -> In (a, b) d -> dict_get eqb d a = Some b.
Proof.
  unfold dict_keys. induction d as [|[a' b'] d IH]; cbn; [tauto|].
  intros ND Hin. inversion ND as [|? ? Hn ND']; subst.
  destruct Hin as [[= -> ->]|Hin].
  - rewrite (A_eqb_refl _ eqb_spec). reflexivity.
  - rewrite (A_eqb_neq _ eqb_spec).
    + apply IH; assumption.
    + intros ->. apply Hn. apply (in_map fst) in Hin. exact Hin.
Qed.

Lemma dict_set_same {A B} (eqb : A -> A -> bool) (d : list (A * B))
    (a : A) (b : B) :
  dict_get eqb d a = Some b -> dict_set eqb d a b = d.
Proof.
  induction d as [|[a' b'] d IH]; cbn; [discriminate|].
  destruct (eqb a a').
  - intros [= ->]. reflexivity.
  - intro H. rewrite IH by exact H. reflexivity.
Qed.

(** Replaying records the cache already holds changes nothing. *)
Lemma replay_present (depth : nat) (items : list (K * V)) (ms : Z)
    (f : option string) (sh : Shelf) (l : list K) (rest : list (K * V)) :
  NoDup (hkeys items) ->
  1 <= ms ->
  incl rest items ->
  Shelf_items_for sh (dict_keys (map entry rest))
    (fun hk r =>
       wrapped___setitem___with K_eqb hash
         (initialize_if_not_initialized_at K_eqb hash depth) (fst r) (snd r))
    (opened_world items ms f sh [] l)
  = (Ok tt, opened_world items ms f sh [] l).
Proof.
  intros ND Hms. induction rest as [|[k v] rest IH]; intro Hin;
    [reflexivity|].
  assert (Hkv : In (k, v) items) by (apply Hin; now left).
  assert (NDk : NoDup (dict_keys items)) by exact (NoDup_map_inv _ _ ND).
  assert (Hset :
    wrapped___setitem___with K_eqb hash
      (initialize_if_not_initialized_at K_eqb hash depth) k v
      (opened_world items ms f sh [] l)
    = (Ok tt, opened_world items ms f sh [] l)).
  { unfold wrapped___setitem___with, Cache___setitem__, opened_world.
    cbn [wrapped maxsize data].
    replace (1 >? ms) with false by (symmetry; apply Zgtb_false; lia).
    replace (dict_mem K_eqb items k) with true.
    2:{ symmetry. apply (dict_mem_In _ K_eqb_spec).
        apply (in_map fst) in Hkv. exact Hkv. }
    unfold bind, ret, modify. cbn.
    rewrite (@dict_set_same K V K_eqb items k v); [reflexivity|].
    apply (@dict_get_NoDup_In K V K_eqb K_eqb_spec); assumption. }
  assert (Hget :
    Shelf___getitem__ sh (hash_key hash k) (opened_world items ms f sh [] l)
    = (Ok (k, v), opened_world items ms f sh [] l)).
  { unfold Shelf___getitem__, opened_world at 1. cbn [disk].
    rewrite app_nil_r.
    rewrite (@dict_get_NoDup_In string (K * V) String.eqb string_eqb_spec
               (map entry items) (hash_key hash k) (k, v));
      [reflexivity
      |rewrite dict_keys_entry; exact ND
      |exact (in_map entry _ _ Hkv)]. }
  change (dict_keys (map entry ((k, v) :: rest)))
    with (hash_key hash k :: dict_keys (map entry rest)).
  cbn [Shelf_items_for]. unfold bind at 1. rewrite Hget.
  cbn [fst snd]. unfold bind at 1. rewrite Hset.
  apply IH. intros x Hx. apply Hin. now right.
Qed.

(** X5. Closing is not final and costs nothing: on a settled world, the
    operation that follows [close()] reopens the shelf under the same
    name, replays the store without changing cache, store or hook log, and
    so behaves exactly as if [close()] had not been called. *)
Theorem X5_close_then_reopen_is_transparent (U : list K) (w : World) :
  settled hash U w ->
  let wc := snd (PersistentCache_close w) in
  persistent_dict wc = None /\
  initialize_if_not_initialized K_eqb hash wc = (Ok tt, w) /\
  (forall o, step_cache K_eqb hash o wc = step_cache K_eqb hash o w).
Proof.
  intros (items & ms & name & l & -> & Hf & ND & Hsub & Hlen). cbv zeta.
  assert (Hinit :
    initialize_if_not_initialized K_eqb hash
      (snd (PersistentCache_close
              (opened_world items ms (Some name) (DbfilenameShelf name) [] l)))
    = (Ok tt, opened_world items ms (Some name) (DbfilenameShelf name) [] l)).
  { set (W := opened_world items ms (Some name) (DbfilenameShelf name) [] l).
    change (snd (PersistentCache_close W)) with (with_persistent_dict None W).
    unfold initialize_if_not_initialized, recursion_limit.
    rewrite initialize_at_S.
    change (filename (with_persistent_dict None W)) with (Some name).
    change (persistent_dict (with_persistent_dict None W))
      with (@None Shelf).
    rewrite Hf. cbn [andb is_None]. cbv zeta.
    rewrite bind_modify. unfold Shelf_keys. rewrite bind_gets.
    change (with_persistent_dict (Some (DbfilenameShelf name))
              (with_persistent_dict None W)) with W.
    change (disk W) with (map entry items ++ []). rewrite app_nil_r.
    destruct items as [|x items'] eqn:Ei.
    - reflexivity.
    - assert (Hms : 1 <= ms) by (cbn [List.length] in Hlen; lia).
      exact (@replay_present 7 (x :: items') ms (Some name)
               (DbfilenameShelf name) l (x :: items') ND Hms
               (incl_refl _)). }
  split; [reflexivity|]. split; [exact Hinit|].
  intro o. exact (@step_cache_after_initialize K V K_eqb hash o _ _ Hinit).
Qed.

Lemma map_snd_entry (items : list (K * V)) : map snd (map entry items) = items.
Proof. rewrite map_map. cbn. apply map_id. Qed.

Lemma store_ok_mirror (items : list (K * V)) :
  NoDup (hkeys items) -> store_ok hash (map entry items).
Proof.
  intro ND. split.
  - rewrite dict_keys_entry. exact ND.
  - apply Forall_forall. intros e He. apply in_map_iff in He.
    destruct He as (x & <- & _). reflexivity.
Qed.

Lemma store_ok_Permutation (d d' : Store K V) :
  Permutation d' d -> store_ok hash d -> store_ok hash d'.
Proof.
  intros HP [ND WF]. split.
  - apply (Permutation_NoDup (l := dict_keys d)); [|exact ND].
    apply Permutation_map. apply Permutation_sym. exact HP.
  - apply Forall_forall. intros e He.
    apply (proj1 (Forall_forall _ _) WF).
    apply (Permutation_in (l := d')); assumption.
Qed.

(** X6. Persist and reload: let a settled world leave its store, and let
    the store hand out its records in any order [d'] whatever.  A new
    [PersistentCache], under any truthy filename and with a capacity of at
    least 1 that holds the items, loads without error, without eviction
    and without calling the hook; it holds exactly the stored items, which
    are the items of the old cache (each key with its value, none missing,
    none added), and the store is left as it was. *)
Theorem X6_reload_reconstructs_the_cache
    (U : list K) (w : World) (name' : string) (ms' : Z) (d' : Store K V) :
  settled hash U w ->
  Permutation d' (disk w) ->
  truthy (Some name') = true ->
  1 <= ms' ->
  Z.of_nat (List.length (data (wrapped w))) <= ms' ->
  let r := initialize_if_not_initialized K_eqb hash
             (PersistentCache___init__ (Some name') ms' d') in
  fst r = Ok tt /\
  data (wrapped (snd r)) = map snd d' /\
  Permutation (data (wrapped (snd r))) (data (wrapped w)) /\
  (forall k, dict_get K_eqb (data (wrapped (snd r))) k
             = dict_get K_eqb (data (wrapped w)) k) /\
  disk (snd r) = d' /\
  hook_log (snd r) = [].
Proof.
  intros (items & ms & name & l & -> & Hf & ND & Hsub & Hlen) HP Hf' Hms' Hfit.
  cbv zeta. cbn [wrapped data disk opened_world] in *.
  rewrite app_nil_r in HP.
  assert (Hok : store_ok hash d')
    by exact (store_ok_Permutation HP (@store_ok_mirror items ND)).
  assert (HPi : Permutation (map snd d') items).
  { rewrite <- (map_snd_entry items). apply Permutation_map. exact HP. }
  assert (Hlen' : List.length (map snd d') = List.length items)
    by exact (Permutation_length HPi).
  rewrite (@initialize_fresh K V K_eqb hash K_eqb_spec name' ms' d'
             Hf' (or_introl Hms') Hok).
  destruct (@replay_exact K V ms' (map snd d') Hms' [] []) as [Hd Hl];
    [cbn; lia|].
  cbn [app] in Hd, Hl.
  replace (List.length (map snd d') - Z.to_nat ms')%nat with O in Hd, Hl
    by lia.
  cbn [skipn firstn dict_keys map] in Hd, Hl.
  cbn [fst snd wrapped data disk hook_log opened_world].
  rewrite Hd, Hl, app_nil_r.
  split; [reflexivity|]. split; [reflexivity|]. split; [exact HPi|].
  split; [|split; [symmetry; apply store_ok_records; exact Hok | reflexivity]].
  intro k.
  assert (NDi : NoDup (dict_keys items)) by exact (NoDup_map_inv _ _ ND).
  assert (NDd : NoDup (dict_keys (map snd d'))).
  { apply (Permutation_NoDup (l := dict_keys items)); [|exact NDi].
    apply Permutation_map. apply Permutation_sym. exact HPi. }
  destruct (dict_get K_eqb items k) as [v|] eqn:E.
  - apply (@dict_get_NoDup_In K V K_eqb K_eqb_spec); [exact NDd|].
    apply (Permutation_in (l := items));
      [apply Permutation_sym; exact HPi|].
    apply (dict_get_In _ K_eqb_spec). exact E.
  - destruct (dict_get K_eqb (map snd d') k) as [v'|] eqn:E'; [|reflexivity].
    apply (dict_get_In _ K_eqb_spec) in E'.
    apply (Permutation_in _ HPi) in E'.
    rewrite (@dict_get_NoDup_In K V K_eqb K_eqb_spec items k v' NDi E') in E.
    discriminate E.
Qed.

(** X8. Two distinct keys with the same hash share one store record, and
    the last one set wins: on a fresh store with capacity at least 2, after
    [cache[k1] = v1] and [cache[k2] = v2] the cache holds both items but
    the store holds the single record [(k2, v2)]; no eviction happened and
    the hook was not called.  A new instance opened on that store loads
    [k2] only: [k1] is lost across a restart. *)
Theorem X8_colliding_keys_share_one_record
    (name : string) (ms : Z) (k1 k2 : K) (v1 v2 : V) :
  truthy (Some name) = true ->
  2 <= ms ->
  k1 <> k2 ->
  hash k1 = hash k2 ->
  let r := run K_eqb hash [OnCache (OpSet k1 v1); OnCache (OpSet k2 v2)]
             (PersistentCache___init__ (Some name) ms []) in
  let r' := initialize_if_not_initialized K_eqb hash
              (PersistentCache___init__ (Some name) ms (disk (snd r))) in
  fst r = [Ok VNone; Ok VNone] /\
  data (wrapped (snd r)) = [(k1, v1); (k2, v2)] /\
  disk (snd r) = [(hash_key hash k2, (k2, v2))] /\
  hook_log (snd r) = [] /\
  fst r' = Ok tt /\
  data (wrapped (snd r')) = [(k2, v2)].
Proof.
  intros Hf Hms Hne Hh.
  assert (Hhk : hash_key hash k1 = hash_key hash k2)
    by (unfold hash_key; rewrite Hh; reflexivity).
  assert (Hrun :
    run K_eqb hash [OnCache (OpSet k1 v1); OnCache (OpSet k2 v2)]
      (PersistentCache___init__ (Some name) ms [])
    = ([Ok VNone; Ok VNone],
       {| wrapped := {| data := [(k1, v1); (k2, v2)]; maxsize := ms |};
          wrapped_hooked := true; filename := Some name;
          persistent_dict := Some (DbfilenameShelf name);
          disk := [(hash_key hash k2, (k2, v2))];
          hook_log := [] |})).
  { pose proof (@initialize_fresh K V K_eqb hash K_eqb_spec name ms []
                  Hf (or_intror eq_refl)
                  (conj (NoDup_nil _) (Forall_nil _))) as Hinit.
    cbn [replay_data replay_log map] in Hinit.
    cbn [run step].
    rewrite (@step_cache_after_initialize K V K_eqb hash _ _ _ Hinit).
    cbn [step_cache]. unfold returning.
    rewrite (@setitem_absent K V K_eqb hash K_eqb_spec);
      [|lia|intros []|].
    2:{ rewrite excess_below by (cbn; lia). intros []. }
    unfold insert_new, evicted_by. rewrite excess_below by (cbn; lia).
    cbn [skipn firstn app dict_keys map fmap_result].
    unfold PersistentCache___setitem__, bind.
    rewrite initialize_noop by apply opened_world_initialized.
    unfold wrapped___setitem__, initialize_if_not_initialized.
    rewrite (@opened_setitem_new K V K_eqb hash K_eqb_spec);
      [|lia|].
    2:{ intros [H|[]]. cbn in H. congruence. }
    unfold insert_new, evicted_by. rewrite excess_below by (cbn; lia).
    unfold Shelf___setitem__, Shelf_sync, modify, ret, bind.
    cbn. rewrite <- Hhk, String.eqb_refl. reflexivity. }
  cbv zeta. rewrite Hrun. cbn [fst snd wrapped data disk hook_log].
  assert (Hok : store_ok hash [(hash_key hash k2, (k2, v2))]).
  { split; [repeat constructor; intros [] | repeat constructor]. }
  assert (Hms1 : 1 <= ms) by lia.
  rewrite (@initialize_fresh K V K_eqb hash K_eqb_spec name ms
             [(hash_key hash k2, (k2, v2))] Hf (or_introl Hms1) Hok).
  cbn [fst snd wrapped data opened_world map replay_data].
  unfold insert_new. rewrite excess_below by (cbn; lia).
  repeat split; reflexivity.
Qed.
End Settled.

(** ** Write-through and delete, from any world *)
Section WriteThrough.
Variables (K V : Type).
Variable K_eqb : K -> K -> bool.
Variable hash : K -> Z.
Hypothesis K_eqb_spec : forall a b, K_eqb a b = true <-> a = b.

#[local] Abbreviation World := (World K V).

(** X13. Write-through: whenever [cache[k] = v] returns normally on an
    object with a truthy filename, from any world, used before or not,
    the shelf is open, the store holds the record [(k, v)] under the store
    key of [k], and the cache holds [v] under [k]. *)
Theorem X13_successful_set_is_written_through
    (k : K) (v : V) (w w' : World) :
  truthy (filename w) = true ->
  PersistentCache___setitem__ K_eqb hash k v w = (Ok tt, w') ->
  persistent_dict w' <> None /\
  dict_get String.eqb (disk w') (hash_key hash k) = Some (k, v) /\
  dict_get K_eqb (data (wrapped w')) k = Some v.
Proof.
  intros Hf. unfold PersistentCache___setitem__, bind.
  destruct (initialize_frame K_eqb hash w) as (Hf1 & _ & _ & Hi1 & _).
  destruct (initialize_if_not_initialized K_eqb hash w) as [[[]|e|] w1];
    try discriminate.
  cbn [snd] in Hf1, Hi1.
  assert (Hc1 : negb (truthy (fst (fst (fst (config w1))))
                      && is_None (snd (fst (fst (config w1))))) = true)
    by exact Hi1.
  pose proof (@preserves_wrapped___setitem___with K V K_eqb hash (config w1)
                Hc1 recursion_limit k v w1 eq_refl) as Hc2.
  pose proof (@wrapped___setitem___Ok K V K_eqb hash K_eqb_spec k v w1) as Hd.
  unfold wrapped___setitem__, initialize_if_not_initialized in *.
  destruct (wrapped___setitem___with _ _ _ _ _ w1) as [[[]|e|] w2];
    try discriminate.
  cbn [snd] in Hc2. specialize (Hd w2 eq_refl).
  unfold stable, config in Hc2. injection Hc2 as Hf2 Hp2 _ _.
  assert (Hp : persistent_dict w2 <> None).
  { intro Hn. unfold initialized in Hi1.
    rewrite <- Hp2, Hn, Hf1, Hf in Hi1. discriminate Hi1. }
  destruct (persistent_dict w2) as [sh|] eqn:Ep; [|now contradiction Hp].
  unfold Shelf___setitem__, Shelf_sync, modify, ret, bind.
  intros [= <-]. cbn [persistent_dict disk wrapped with_disk].
  rewrite Ep. repeat split.
  - discriminate.
  - apply (dict_get_set_same _ string_eqb_spec).
  - exact Hd.
Qed.

(** X14. A delete that returns normally leaves the key in neither place:
    on an initialised object with the hooked cache, whose two dicts have
    unique keys, after [cache.__delitem__(k)] returns the cache no longer
    has [k], the store no longer has the store key of [k], also when
    another cached key shares that store key, and the hook has been
    called exactly once, with [k]. *)
Theorem X14_successful_delete_clears_cache_and_store (k : K) (w w' : World) :
  initialized w = true ->
  wrapped_hooked w = true ->
  NoDup (dict_keys (data (wrapped w))) ->
  NoDup (dict_keys (disk w)) ->
  PersistentCache___getattr_____delitem__ K_eqb hash k w = (Ok tt, w') ->
  dict_mem K_eqb (data (wrapped w')) k = false /\
  dict_mem String.eqb (disk w') (hash_key hash k) = false /\
  data (wrapped w') = dict_del K_eqb (data (wrapped w)) k /\
  disk w' = dict_del String.eqb (disk w) (hash_key hash k) /\
  hook_log w' = hook_log w ++ [k].
Proof.
  intros Hi Hh NDd NDs.
  unfold PersistentCache___getattr_____delitem__, bind.
  rewrite (initialize_noop _ _ _ Hi).
  unfold wrapped___delitem__, wrapped___delitem___with, DelMixin___delitem__,
    bind.
  rewrite Hh, Cache___delitem___wrapped.
  destruct (dict_mem K_eqb (data (wrapped w)) k) eqn:Hm; [|discriminate].
  unfold initialize_if_not_initialized.
  rewrite delete_callback_with_initialized by (destruct w; exact Hi).
  unfold on_persistent_dict, Shelf___delitem__, after_removal,
    bare___delitem__, Cache___delitem__.
  rewrite Hm.
  destruct w as [c h f p d l]. cbn in *.
  destruct p as [sh|]; [|discriminate].
  destruct (dict_mem String.eqb d (hash_key hash k)) eqn:Hs; [|discriminate].
  intros [= <-]. cbn. repeat split.
  - apply (dict_mem_false _ K_eqb_spec).
    apply (dict_del_absent _ K_eqb_spec). exact NDd.
  - apply (dict_mem_false _ string_eqb_spec).
    apply (dict_del_absent _ string_eqb_spec). exact NDs.
Qed.

(** X15. A set is not atomic when the eviction it triggers cannot be
    mirrored: with the shelf open and the cache at capacity, if the store
    has no record under the store key of the oldest cached key, setting a
    new key raises the store's [KeyError]; the oldest item is gone from
    memory, the new item is neither in memory nor in the store, and the
    store is unchanged. *)
Theorem X15_set_aborts_when_eviction_cannot_be_mirrored
    (k : K) (v : V) (k0 : K) (v0 : V) (t : list (K * V)) (ms : Z)
    (f : option string) (sh : Shelf) (d : Store K V) (l : list K) :
  let w := {| wrapped := {| data := (k0, v0) :: t; maxsize := ms |};
              wrapped_hooked := true; filename := f;
              persistent_dict := Some sh; disk := d; hook_log := l |} in
  Z.of_nat (List.length ((k0, v0) :: t)) = ms ->
  ~ In k (dict_keys ((k0, v0) :: t)) ->
  dict_mem String.eqb d (hash_key hash k0) = false ->
  PersistentCache___setitem__ K_eqb hash k v w
  = (Raise (KeyError (StoreKey (hash_key hash k0))),
     {| wrapped := {| data := t; maxsize := ms |};
        wrapped_hooked := true; filename := f;
        persistent_dict := Some sh; disk := d; hook_log := l ++ [k0] |}).
Proof.
  cbv zeta. intros Hlen Hk Hd.
  unfold PersistentCache___setitem__, bind.
  rewrite initialize_noop
    by (unfold initialized; cbn; rewrite andb_false_r; reflexivity).
  unfold wrapped___setitem__, wrapped___setitem___with, Cache___setitem__.
  cbn [wrapped maxsize data].
  replace (1 >? ms) with false
    by (symmetry; apply Zgtb_false; cbn [List.length] in Hlen; lia).
  replace (dict_mem K_eqb ((k0, v0) :: t) k) with false
    by (symmetry; apply (dict_mem_false _ K_eqb_spec); exact Hk).
  unfold bind at 1. cbn [List.length Cache_evict_while].
  unfold currsize. cbn [wrapped data maxsize].
  replace (Z.of_nat (List.length ((k0, v0) :: t)) + 1 >? ms) with true
    by (symmetry; apply Z.gtb_gt; lia).
  unfold bind at 1. unfold Cache_popitem.
  cbn [wrapped data dict_keys map fst].
  unfold bind at 1. unfold Cache___getitem__.
  cbn [wrapped data dict_get]. rewrite (A_eqb_refl _ K_eqb_spec).
  unfold bind at 1.
  unfold wrapped___delitem___with. cbn [wrapped_hooked].
  unfold DelMixin___delitem__, bind at 1.
  rewrite Cache___delitem___wrapped. cbn [wrapped data].
  replace (dict_mem K_eqb ((k0, v0) :: t) k0) with true
    by (unfold dict_mem; cbn; rewrite (A_eqb_refl _ K_eqb_spec); reflexivity).
  unfold initialize_if_not_initialized.
  rewrite delete_callback_with_initialized
    by (unfold initialized; cbn; rewrite andb_false_r; reflexivity).
  unfold on_persistent_dict, Shelf___delitem__, after_removal,
    bare___delitem__, Cache___delitem__, dict_mem.
  cbn. rewrite (A_eqb_refl _ K_eqb_spec). cbn.
  unfold dict_mem in Hd. rewrite Hd. reflexivity.
Qed.
End WriteThrough.

(** ** The further properties at concrete inputs *)

Lemma after_one_set_settled : settled int_hash small_keys after_one_set.
Proof.
  exists [(1, 10)], 2, "cache.db"%string, (@nil Z).
  split; [vm_compute; reflexivity|]. split; [reflexivity|].
  split; [repeat constructor; intros []|].
  split; [intros x [<-|[]]; cbn; auto | cbn; lia].
Qed.

Lemma sample_world_settled : settled int_hash small_keys sample_world.
Proof.
  exists [(3, 30); (1, 11)], 2, "cache.db"%string, [1; 2].
  split; [vm_compute; reflexivity|]. split; [reflexivity|].
  split.
  - repeat constructor; cbn; intuition discriminate.
  - split; [intros x [<-|[<-|[]]]; cbn; auto | cbn; lia].
Qed.

Lemma X5_witness :
  settled int_hash small_keys sample_world /\
  initialize_if_not_initialized Z.eqb int_hash
    (snd (PersistentCache_close sample_world))
  = (Ok tt, sample_world).
Proof.
  split; [exact sample_world_settled|].
  exact (proj1 (proj2
    (@X5_close_then_reopen_is_transparent Z Z Z.eqb int_hash Z.eqb_eq
       small_keys sample_world sample_world_settled))).
Defined.

Lemma X6_witness :
  settled int_hash small_keys sample_world /\
  Permutation (rev (disk sample_world)) (disk sample_world) /\
  truthy (Some "other.db"%string) = true /\
  1 <= 5 /\
  Z.of_nat (List.length (data (wrapped sample_world))) <= 5 /\
  data (wrapped (snd (initialize_if_not_initialized Z.eqb int_hash
                        (PersistentCache___init__ (Some "other.db"%string) 5
                           (rev (disk sample_world))))))
  = map snd (rev (disk sample_world)) /\
  Permutation
    (data (wrapped (snd (initialize_if_not_initialized Z.eqb int_hash
                           (PersistentCache___init__ (Some "other.db"%string)
                              5 (rev (disk sample_world)))))))
    (data (wrapped sample_world)).
Proof.
  assert (HP : Permutation (rev (disk sample_world)) (disk sample_world))
    by (apply Permutation_sym; apply Permutation_rev).
  assert (H5 : 1 <= 5) by lia.
  assert (Hfit : Z.of_nat (List.length (data (wrapped sample_world))) <= 5)
    by (vm_compute; discriminate).
  split; [exact sample_world_settled|]. split; [exact HP|].
  split; [reflexivity|]. split; [exact H5|]. split; [exact Hfit|].
  refine ((fun H => conj (proj1 (proj2 H)) (proj1 (proj2 (proj2 H))))
    (@X6_reload_reconstructs_the_cache Z Z Z.eqb int_hash Z.eqb_eq
       small_keys sample_world "other.db"%string 5 (rev (disk sample_world))
       sample_world_settled HP eq_refl H5 Hfit)).
Defined.

Lemma X7_witness :
  truthy (Some "cache.db"%string) = true /\
  store_ok int_hash one_record /\
  Z.of_nat (List.length (disk sample_world)) <= Z.max 0 2.
Proof.
  split; [reflexivity|]. split; [exact one_record_ok|].
  refine (proj1
    (@X7_store_bounded_by_capacity Z Z Z.eqb int_hash Z.eqb_eq
       small_keys "cache.db"%string 2 one_record (OpSet 2 20)
       [OpSet 3 30; OpDelete 2; OpGet 3; OpSet 1 11]
       eq_refl (or_introl _) one_record_ok _ _ small_keys_collision_free)).
  - lia.
  - intros x [<-|[]]. cbn. auto.
  - repeat (apply Forall_cons;
            [intros x Hx; cbn in Hx; unfold small_keys; cbn; intuition|]).
    apply Forall_nil.
Defined.

Lemma X8_witness :
  truthy (Some "cache.db"%string) = true /\
  2 <= 2 /\
  -1 <> -2 /\
  int_hash (-1) = int_hash (-2) /\
  disk (snd (run Z.eqb int_hash
               [OnCache (OpSet (-1) 10); OnCache (OpSet (-2) 20)]
               (fresh 2 [])))
  = [(hash_key int_hash (-2), (-2, 20))].
Proof.
  split; [reflexivity|]. split; [lia|]. split; [lia|].
  split; [reflexivity|].
  refine (proj1 (proj2 (proj2
    (@X8_colliding_keys_share_one_record Z Z Z.eqb int_hash Z.eqb_eq
       "cache.db"%string 2 (-1) (-2) 10 20 eq_refl _ _ eq_refl)))).
  - lia.
  - lia.
Defined.

Lemma X9_witness :
  settled int_hash small_keys sample_world /\
  fst (PersistentCache___getattr___popitem Z.eqb int_hash sample_world)
  = Ok (3, 30).
Proof.
  split; [exact sample_world_settled|].
  pose proof (@X9_popitem_removes_oldest Z Z Z.eqb int_hash Z.eqb_eq
                small_keys sample_world sample_world_settled) as H.
  cbv zeta in H.
  change (data (wrapped sample_world)) with [(3, 30); (1, 11)] in H.
  exact (proj1 H).
Defined.

Lemma X10_witness :
  settled int_hash small_keys sample_world /\
  In 2 small_keys /\
  ~ In 2 (dict_keys (data (wrapped sample_world))) /\
  1 <= maxsize (wrapped sample_world) /\
  fst (PersistentCache___setitem__ Z.eqb int_hash 2 22 sample_world) = Ok tt.
Proof.
  assert (Hn : ~ In 2 (dict_keys (data (wrapped sample_world)))).
  { vm_compute. intuition discriminate. }
  assert (Hm : 1 <= maxsize (wrapped sample_world))
    by (vm_compute; discriminate).
  split; [exact sample_world_settled|]. split; [cbn; auto|].
  split; [exact Hn|]. split; [exact Hm|].
  exact (proj1
    (@X10_insert_evicts_oldest_at_capacity Z Z Z.eqb int_hash Z.eqb_eq
       small_keys 2 22 sample_world sample_world_settled
       small_keys_collision_free (or_intror (or_introl eq_refl)) Hn Hm)).
Defined.

Lemma X11_witness :
  settled int_hash small_keys sample_world /\
  In 1 (dict_keys (data (wrapped sample_world))) /\
  hook_log (snd (PersistentCache___setitem__ Z.eqb int_hash 1 12 sample_world))
  = hook_log sample_world.
Proof.
  assert (Hin : In 1 (dict_keys (data (wrapped sample_world))))
    by (vm_compute; auto).
  split; [exact sample_world_settled|]. split; [exact Hin|].
  exact (proj1 (proj2 (proj2 (proj2 (proj2 (proj2
    (@X11_overwrite_in_place Z Z Z.eqb int_hash Z.eqb_eq small_keys 1 12
       sample_world sample_world_settled Hin))))))).
Defined.

Lemma X12_witness :
  settled int_hash small_keys after_one_set /\
  In 3 small_keys /\
  ~ In 3 (dict_keys (data (wrapped after_one_set))) /\
  Z.of_nat (List.length (data (wrapped after_one_set)))
    < maxsize (wrapped after_one_set) /\
  run Z.eqb int_hash [OnCache (OpSet 3 30); OnCache (OpDelete 3)] after_one_set
  = ([Ok VNone; Ok VNone],
     with_hook_log (hook_log after_one_set ++ [3]) after_one_set).
Proof.
  assert (Hn : ~ In 3 (dict_keys (data (wrapped after_one_set)))).
  { vm_compute. intuition discriminate. }
  assert (Hl : Z.of_nat (List.length (data (wrapped after_one_set)))
               < maxsize (wrapped after_one_set))
    by (vm_compute; reflexivity).
  split; [exact after_one_set_settled|]. split; [cbn; auto|].
  split; [exact Hn|]. split; [exact Hl|].
  exact (@X12_set_then_delete_restores Z Z Z.eqb int_hash Z.eqb_eq
           small_keys 3 30 after_one_set after_one_set_settled
           small_keys_collision_free
           (or_intror (or_intror (or_introl eq_refl))) Hn Hl).
Defined.

Lemma X13_witness :
  truthy (filename (fresh 1 two_records)) = true /\
  exists w' : World Z Z,
    PersistentCache___setitem__ Z.eqb int_hash 3 30 (fresh 1 two_records)
    = (Ok tt, w') /\
    dict_get String.eqb (disk w') (hash_key int_hash 3) = Some (3, 30).
Proof.
  split; [reflexivity|]. eexists. split.
  - vm_compute. reflexivity.
  - refine (proj1 (proj2
      (@X13_successful_set_is_written_through Z Z Z.eqb int_hash Z.eqb_eq
         3 30 (fresh 1 two_records) _ eq_refl _))).
    vm_compute. reflexivity.
Defined.

Lemma X14_witness :
  initialized after_one_set = true /\
  wrapped_hooked after_one_set = true /\
  NoDup (dict_keys (data (wrapped after_one_set))) /\
  NoDup (dict_keys (disk after_one_set)) /\
  exists w' : World Z Z,
    PersistentCache___getattr_____delitem__ Z.eqb int_hash 1 after_one_set
    = (Ok tt, w') /\
    dict_mem Z.eqb (data (wrapped w')) 1 = false /\
    dict_mem String.eqb (disk w') (hash_key int_hash 1) = false.
Proof.
  assert (N1 : NoDup (dict_keys (data (wrapped after_one_set))))
    by (vm_compute; repeat constructor; intros []).
  assert (N2 : NoDup (dict_keys (disk after_one_set)))
    by (vm_compute; repeat constructor; intros []).
  split; [reflexivity|]. split; [reflexivity|].
  split; [exact N1|]. split; [exact N2|].
  eexists. split.
  - vm_compute. reflexivity.
  - refine ((fun H => conj (proj1 H) (proj1 (proj2 H)))
      (@X14_successful_delete_clears_cache_and_store Z Z Z.eqb int_hash
         Z.eqb_eq 1 after_one_set _ eq_refl eq_refl N1 N2 _)).
    vm_compute. reflexivity.
Defined.

Lemma X15_witness :
  desynchronised
  = {| wrapped := {| data := [(-2, 20); (3, 30)]; maxsize := 2 |};
       wrapped_hooked := true; filename := Some "cache.db"%string;
       persistent_dict := Some (DbfilenameShelf "cache.db");
       disk := [("3"%string, (3, 30))]; hook_log := [-1] |} /\
  fst (PersistentCache___setitem__ Z.eqb int_hash 4 40 desynchronised)
  = Raise (KeyError (StoreKey "-2"%string)) /\
  data (wrapped (snd (PersistentCache___setitem__ Z.eqb int_hash 4 40
                        desynchronised)))
  = [(3, 30)].
Proof.
  assert (E : desynchronised
    = {| wrapped := {| data := [(-2, 20); (3, 30)]; maxsize := 2 |};
         wrapped_hooked := true; filename := Some "cache.db"%string;
         persistent_dict := Some (DbfilenameShelf "cache.db");
         disk := [("3"%string, (3, 30))]; hook_log := [-1] |})
    by (vm_compute; reflexivity).
  split; [exact E|]. rewrite E.
  rewrite (@X15_set_aborts_when_eviction_cannot_be_mirrored Z Z Z.eqb
             int_hash Z.eqb_eq 4 40 (-2) 20 [(3, 30)] 2
             (Some "cache.db"%string) (DbfilenameShelf "cache.db")
             [("3"%string, (3, 30))] [-1]).
  - split; reflexivity.
  - reflexivity.
  - cbn. intuition discriminate.
  - reflexivity.
Defined.
